(** * Decision maker: the weighted wheel and the binary oracle

    A shallow embedding of the two React components of the repository:

    - the weighted wheel ([Module Wheel]): the component whose handlers
      are [handleAddDecision], [handleDecide], [handleRemoveDecision] and
      whose style helper is [generateWheelStyle];
    - the binary oracle ([Module Binary]): [my-app/src/App.tsx] with its
      single handler [handleSubmit].

    Conventions of the embedding.

    - A JavaScript [number] is read in two ways.  [Module Wheel] and
      [Module Binary] use exact rationals ([Q]): the registry, the
      handlers and the event loop are reasoned about in this reading,
      and equalities between computed numbers are stated with [==].
      The sums of the weights and the comparisons of the selection loop
      are the same in the source's binary64 arithmetic as long as the
      weights are integers and their total is below 2^53; the degrees
      and the product [Math.random() * totalWeight] are rounded by the
      source.  [Module Wheel64] gives the arithmetic of [handleDecide]
      on binary64 itself (primitive floats), rounding, [NaN] and
      infinities included.
    - A JavaScript string is the list of its UTF-16 code units.
    - [useState] cells are the fields of a record; a handler is a function
      from the state of the render it was created in to the next state.
    - The ambient sources [Math.random()] and [Date.now()] are explicit
      arguments of the handlers that read them.
    - [setTimeout (cb, d)] is recorded as a [Timeout] value returned next
      to the new state. *)

From Stdlib Require Import ZArith NArith QArith Qfield Lqa Lia PrimFloat.
From Stdlib Require Import Bool String Ascii List.
From Stdlib Require Finite.
Import ListNotations.

Set Implicit Arguments.

(** ** JavaScript strings *)

Module JS.

(** A string is a sequence of UTF-16 code units. *)
Definition str : Type := list N.

(** A string literal of the source (all of them are ASCII). *)
Definition lit (s : string) : str :=
  map N_of_ascii (list_ascii_of_string s).

(** ECMAScript [WhiteSpace] and [LineTerminator] code units: what
    [String.prototype.trim] strips. *)
Definition isWhiteSpace (c : N) : bool :=
  ((9 <=? c) && (c <=? 13)           (* TAB LF VT FF CR *)
   || (c =? 32)                      (* SPACE *)
   || (c =? 160)                     (* NBSP *)
   || (c =? 5760)                    (* OGHAM SPACE MARK *)
   || ((8192 <=? c) && (c <=? 8202)) (* EN QUAD .. HAIR SPACE *)
   || (c =? 8232) || (c =? 8233)     (* LS PS *)
   || (c =? 8239) || (c =? 8287)     (* NNBSP MMSP *)
   || (c =? 12288)                   (* IDEOGRAPHIC SPACE *)
   || (c =? 65279))%N.               (* ZWNBSP / BOM *)

Fixpoint trimStart (s : str) : str :=
  match s with
  | [] => []
  | c :: rest => if isWhiteSpace c then trimStart rest else s
  end.

Definition trimEnd (s : str) : str := rev (trimStart (rev s)).

(** [s.trim()] *)
Definition trim (s : str) : str := trimEnd (trimStart s).

(** [s === ""] *)
Definition isEmpty (s : str) : bool :=
  match s with
  | [] => true
  | _ :: _ => false
  end.

(** [toLowerCase] on the Latin capitals A-Z; other code units are left
    alone.  On an ASCII string this is ECMAScript's [toLowerCase], and
    the sources only ever lower-case the ASCII constants SHOULD and
    SHOULDNT. *)
Definition lowerUnit (c : N) : N :=
  if ((65 <=? c) && (c <=? 90))%N then (c + 32)%N else c.

Definition toLowerCase (s : str) : str := map lowerUnit s.

Fixpoint startsWith (s p : str) {struct p} : bool :=
  match p, s with
  | [], _ => true
  | _ :: _, [] => false
  | a :: p', b :: s' => (a =? b)%N && startsWith s' p'
  end.

(** [s.includes(p)] *)
Fixpoint includes (s p : str) : bool :=
  startsWith s p ||
  match s with
  | [] => false
  | _ :: s' => includes s' p
  end.

(** Containment up to letter case, as a test harness would check it:
    both sides are lower-cased first. *)
Definition includesIgnoreCase (s p : str) : bool :=
  includes (toLowerCase s) (toLowerCase p).

(** Two auxiliary tests used to rule out occurrences of a phrase.
    [clash s q]: the strings differ at a position that both have, so
    nothing that starts with [s] starts with [q].  [clashAll P q]: this
    holds of every non-empty suffix of [P]. *)
Fixpoint clash (s q : str) {struct q} : bool :=
  match q, s with
  | a :: q', b :: s' => negb (a =? b)%N || clash s' q'
  | _, _ => false
  end.

Fixpoint clashAll (P q : str) : bool :=
  match P with
  | [] => true
  | _ :: P' => clash P q && clashAll P' q
  end.

(** [x < y] on numbers. *)
Definition ltb (x y : Q) : bool := negb (Qle_bool y x).

(** [x || d] on numbers: [0] is falsy, every other rational is truthy. *)
Definition orElse (x d : Q) : Q := if Qeq_bool x 0 then d else x.

End JS.

(** ** The weighted wheel *)

Module Wheel.

Local Open Scope Q_scope.

Inductive Team : Type := product | engineering.

Definition Team_eqb (a b : Team) : bool :=
  match a, b with
  | product, product | engineering, engineering => true
  | _, _ => false
  end.

(** [interface DecisionItem] *)
Module DecisionItem.
Record t : Type := mk {
  id : Z;
  decision : JS.str;
  weight : Q;
  team : Team
}.
End DecisionItem.
Abbreviation DecisionItem := DecisionItem.t.

(** The [useState] cells of the component. *)
Record AppState : Type := mkState {
  decisionText : JS.str;
  weight : Q;
  team : Team;
  betterDecision : bool;
  decisionItems : list DecisionItem;
  notification : JS.str;
  isSpinning : bool;
  rotation : Q
}.

(** State of a freshly mounted component: the initial values handed to
    [useState]. *)
Definition initialState : AppState :=
  {| decisionText := [];
     weight := 1;
     team := product;
     betterDecision := false;
     decisionItems := [];
     notification := [];
     isSpinning := false;
     rotation := 0 |}.

(** The setters, one per cell. *)
Definition setDecisionText (v : JS.str) (st : AppState) : AppState :=
  {| decisionText := v; weight := weight st; team := team st;
     betterDecision := betterDecision st;
     decisionItems := decisionItems st; notification := notification st;
     isSpinning := isSpinning st; rotation := rotation st |}.

Definition setWeight (v : Q) (st : AppState) : AppState :=
  {| decisionText := decisionText st; weight := v; team := team st;
     betterDecision := betterDecision st;
     decisionItems := decisionItems st; notification := notification st;
     isSpinning := isSpinning st; rotation := rotation st |}.

Definition setTeam (v : Team) (st : AppState) : AppState :=
  {| decisionText := decisionText st; weight := weight st; team := v;
     betterDecision := betterDecision st;
     decisionItems := decisionItems st; notification := notification st;
     isSpinning := isSpinning st; rotation := rotation st |}.

Definition setBetterDecision (v : bool) (st : AppState) : AppState :=
  {| decisionText := decisionText st; weight := weight st; team := team st;
     betterDecision := v;
     decisionItems := decisionItems st; notification := notification st;
     isSpinning := isSpinning st; rotation := rotation st |}.

(** [setDecisionItems] is always called with an updater function. *)
Definition setDecisionItems
    (f : list DecisionItem -> list DecisionItem) (st : AppState) : AppState :=
  {| decisionText := decisionText st; weight := weight st; team := team st;
     betterDecision := betterDecision st;
     decisionItems := f (decisionItems st); notification := notification st;
     isSpinning := isSpinning st; rotation := rotation st |}.

Definition setNotification (v : JS.str) (st : AppState) : AppState :=
  {| decisionText := decisionText st; weight := weight st; team := team st;
     betterDecision := betterDecision st;
     decisionItems := decisionItems st; notification := v;
     isSpinning := isSpinning st; rotation := rotation st |}.

Definition setIsSpinning (v : bool) (st : AppState) : AppState :=
  {| decisionText := decisionText st; weight := weight st; team := team st;
     betterDecision := betterDecision st;
     decisionItems := decisionItems st; notification := notification st;
     isSpinning := v; rotation := rotation st |}.

Definition setRotation (v : Q) (st : AppState) : AppState :=
  {| decisionText := decisionText st; weight := weight st; team := team st;
     betterDecision := betterDecision st;
     decisionItems := decisionItems st; notification := notification st;
     isSpinning := isSpinning st; rotation := v |}.

(** *** handleAddDecision *)

Definition addErrorMessage : JS.str :=
  JS.lit "Error: Decision text and a positive weight (1 or more) are required!".

(** [now] is the value read from [Date.now()]. *)
Definition handleAddDecision (now : Z) (st : AppState) : AppState :=
  let text := JS.trim (decisionText st) in
  let currentWeight := JS.orElse (weight st) 1 in
  if JS.isEmpty text || Qle_bool currentWeight 0 then
    setNotification addErrorMessage st
  else
    let newItem :=
      {| DecisionItem.id := now;
         DecisionItem.decision := text;
         DecisionItem.weight := currentWeight;
         DecisionItem.team := team st |} in
    setTeam product
      (setWeight 1
         (setDecisionText []
            (setDecisionItems (fun prevItems => prevItems ++ [newItem]) st))).

(** *** handleRemoveDecision *)

Definition handleRemoveDecision (id : Z) (st : AppState) : AppState :=
  setDecisionItems
    (fun prevItems =>
       filter (fun item => negb (DecisionItem.id item =? id)%Z) prevItems)
    st.

(** *** handleDecide *)

Definition decideErrorMessage : JS.str :=
  JS.lit "Error: Please add at least one decision item for each team before deciding!".

(** [betterDecision && item.team == "product"]: the item is skipped. *)
Definition skipped (betterDecision : bool) (item : DecisionItem) : bool :=
  betterDecision && Team_eqb (DecisionItem.team item) product.

(** The counting [forEach] of lines 121-124. *)
Definition countProduct (items : list DecisionItem) : Z :=
  fold_left
    (fun productDecisions decision =>
       if Team_eqb (DecisionItem.team decision) product
       then (productDecisions + 1)%Z else productDecisions)
    items 0%Z.

(** The guard of line 126. *)
Definition lacksTeam (items : list DecisionItem) : bool :=
  let productDecisions := countProduct items in
  (productDecisions <? 1)%Z
  || (Z.of_nat (length items) - productDecisions <? 1)%Z.

(** The [reduce] of lines 137-141. *)
Definition totalWeight (betterDecision : bool) (items : list DecisionItem) : Q :=
  fold_left
    (fun sum item =>
       sum + (if skipped betterDecision item then 0 else DecisionItem.weight item))
    items 0.

(** The [let] variables the selection loop updates. *)
Record Walk : Type := mkWalk {
  randomNum : Q;
  selectedItem : option DecisionItem;
  cumulativeWeight : Q;
  winningEndDegree : Q;
  winningStartDegree : Q
}.

(** Their values on loop entry (lines 142-147). *)
Definition enterLoop (randomNum0 : Q) : Walk :=
  {| randomNum := randomNum0;
     selectedItem := None;
     cumulativeWeight := 0;
     winningEndDegree := 0;
     winningStartDegree := 0 |}.

(** The [for ... of] loop of lines 149-162, with its [continue] and
    [break].  ([x / 0] is [0] in [Q]; the loop is only reasoned about
    for a non-zero [totalWeight].) *)
Fixpoint forOf (betterDecision : bool) (totalWeight : Q)
    (items : list DecisionItem) (w : Walk) : Walk :=
  match items with
  | [] => w
  | item :: rest =>
      if skipped betterDecision item then
        forOf betterDecision totalWeight rest w
      else
        let segmentDegrees := (DecisionItem.weight item / totalWeight) * 360 in
        let winningStartDegree' := cumulativeWeight w in
        let winningEndDegree' := cumulativeWeight w + segmentDegrees in
        let randomNum' := randomNum w - DecisionItem.weight item in
        if Qle_bool randomNum' 0 then
          {| randomNum := randomNum';
             selectedItem := Some item;
             cumulativeWeight := cumulativeWeight w;
             winningEndDegree := winningEndDegree';
             winningStartDegree := winningStartDegree' |}
        else
          forOf betterDecision totalWeight rest
            {| randomNum := randomNum';
               selectedItem := selectedItem w;
               cumulativeWeight := cumulativeWeight w + segmentDegrees;
               winningEndDegree := winningEndDegree';
               winningStartDegree := winningStartDegree' |}
  end.

(** The loop run on a draw [r = Math.random() * totalWeight]. *)
Definition selectionWalk (betterDecision : bool) (items : list DecisionItem)
    (r : Q) : Walk :=
  forOf betterDecision (totalWeight betterDecision items) items (enterLoop r).

(** The segment bounds the loop body assigns to each item it visits
    (lines 150-153 and 161), for all the items that are not skipped. *)
Fixpoint segmentsFrom (betterDecision : bool) (totalWeight : Q)
    (items : list DecisionItem) (cumulativeWeight : Q)
    : list (DecisionItem * (Q * Q)) :=
  match items with
  | [] => []
  | item :: rest =>
      if skipped betterDecision item then
        segmentsFrom betterDecision totalWeight rest cumulativeWeight
      else
        let segmentDegrees := (DecisionItem.weight item / totalWeight) * 360 in
        (item, (cumulativeWeight, cumulativeWeight + segmentDegrees))
        :: segmentsFrom betterDecision totalWeight rest
             (cumulativeWeight + segmentDegrees)
  end.

Definition segments (betterDecision : bool) (items : list DecisionItem)
    : list (DecisionItem * (Q * Q)) :=
  segmentsFrom betterDecision (totalWeight betterDecision items) items 0.

Definition fullSpins : Q := 5.

(** Lines 167-173. *)
Definition finalRotation (winningStartDegree winningEndDegree : Q) : Q :=
  let targetCenterDegree := (winningStartDegree + winningEndDegree) / 2 in
  let finalDegree := 360 - targetCenterDegree in
  finalDegree + fullSpins * 360.

(** A callback handed to [setTimeout] with its delay in milliseconds. *)
Record Timeout : Type := mkTimeout {
  callback : AppState -> AppState;
  delay : Z
}.

(** [`You should ${selectedItem.decision}!`] *)
Definition finalMessage (selectedItem : DecisionItem) : JS.str :=
  JS.lit "You should " ++ DecisionItem.decision selectedItem ++ JS.lit "!".

(** The arrow function of lines 178-184. *)
Definition spinDone (selectedItem : DecisionItem) (st : AppState) : AppState :=
  setNotification (finalMessage selectedItem) (setIsSpinning false st).

(** [random] is the value read from [Math.random()].  The result is the
    next state and the timeouts the handler has scheduled. *)
Definition handleDecide (random : Q) (st : AppState)
    : AppState * list Timeout :=
  if lacksTeam (decisionItems st) then
    (setNotification decideErrorMessage st, [])
  else
    let st1 := setNotification [] st in
    let w :=
      selectionWalk (betterDecision st) (decisionItems st)
        (random * totalWeight (betterDecision st) (decisionItems st)) in
    match selectedItem w with
    | None => (st1, [])
    | Some item =>
        (setRotation (finalRotation (winningStartDegree w) (winningEndDegree w)) st1,
         [ {| callback := spinDone item; delay := 0 |} ])
    end.

(** *** generateWheelStyle

    The style object, kept structured: the stops of the conic gradient
    as (colour, degrees) pairs, the angle of [rotate(...)], and the
    duration in seconds of the [transform] transition ([None] stands for
    ["none"]). *)
Record WheelStyle : Type := mkStyle {
  backgroundImage : list (string * Q);
  transform : Q;
  transition : option Q
}.

Definition colors : list string :=
  [ "#ef4444"; "#f59e0b"; "#10b981"; "#3b82f6"; "#8b5cf6";
    "#ec4899"; "#f87171"; "#fbbf24"; "#34d399"; "#60a5fa" ]%string.

Definition colorAt (index : nat) : string :=
  nth (index mod length colors) colors EmptyString.

(** The [forEach] of lines 57-66, from position [index] on. *)
Fixpoint gradientStopsFrom (totalWeight : Q) (items : list DecisionItem)
    (index : nat) (currentDegree : Q) : list (string * Q) :=
  match items with
  | [] => []
  | item :: rest =>
      let percentage := DecisionItem.weight item / totalWeight in
      let degrees := percentage * 360 in
      let color := colorAt index in
      (color, currentDegree) :: (color, currentDegree + degrees)
      :: gradientStopsFrom totalWeight rest (S index) (currentDegree + degrees)
  end.

(** [None] stands for the empty style object. *)
Definition generateWheelStyle (st : AppState) : option WheelStyle :=
  match decisionItems st with
  | [] => None
  | _ :: _ =>
      let totalWeight :=
        fold_left (fun sum item => sum + DecisionItem.weight item)
          (decisionItems st) 0 in
      let gradientStops :=
        gradientStopsFrom totalWeight (decisionItems st) 0%nat 0 in
      let gradientStops :=
        match gradientStops with
        | [] => []
        | _ :: _ =>
            removelast gradientStops
            ++ [ (colorAt (length (decisionItems st) - 1), 360) ]
        end in
      Some {| backgroundImage := gradientStops;
              transform := rotation st;
              transition := if isSpinning st then Some 5 else None |}
  end.

(** *** The rendered controls and the event loop *)

(** The [disabled] attribute of the decide button. *)
Definition decideDisabled (st : AppState) : bool :=
  (length (decisionItems st) =? 0)%nat || isSpinning st.

(** The [onClick] of the popup backdrop. *)
Definition clickBackdrop (st : AppState) : AppState :=
  if negb (isSpinning st)
     && negb (JS.includes (notification st) (JS.lit "Error"))
  then setNotification [] st
  else st.

(** The [useEffect] of lines 193-202: the timeout it schedules for the
    rendered state, if any. *)
Definition notificationEffect (st : AppState) : option Timeout :=
  if negb (JS.isEmpty (notification st)) && negb (isSpinning st)
  then Some {| callback := setNotification []; delay := 3000 |}
  else None.

(** The [onChange] of the weight field; [parsed] is the result of
    [parseInt], [None] for [NaN]. *)
Definition changeWeight (parsed : option Z) (st : AppState) : AppState :=
  let parsedOr1 :=
    match parsed with
    | None => 1%Z
    | Some z => if (z =? 0)%Z then 1%Z else z
    end in
  setWeight (inject_Z (Z.max 1 parsedOr1)) st.

(** What can happen to a mounted component. *)
Inductive Event : Type :=
| ChangeDecisionText (value : JS.str)
| ChangeWeight (parsed : option Z)
| ChangeTeam (value : Team)
| ToggleBetterDecision
| SubmitAdd (now : Z)
| ClickRemove (id : Z)
| ClickDecide (random : Q)
| ClickBackdrop
| TimeoutFires (n : nat)
| NotificationExpires.

(** The component with the timeouts of [handleDecide] not yet fired. *)
Record World : Type := mkWorld {
  state : AppState;
  pending : list Timeout
}.

Definition mounted : World := {| state := initialState; pending := [] |}.

Fixpoint removeNth {A : Type} (n : nat) (l : list A) : list A :=
  match n, l with
  | _, [] => []
  | O, _ :: rest => rest
  | S n', x :: rest => x :: removeNth n' rest
  end.

Definition dispatch (w : World) (e : Event) : World :=
  let st := state w in
  match e with
  | ChangeDecisionText value =>
      {| state := setDecisionText value st; pending := pending w |}
  | ChangeWeight parsed =>
      {| state := changeWeight parsed st; pending := pending w |}
  | ChangeTeam value =>
      {| state := setTeam value st; pending := pending w |}
  | ToggleBetterDecision =>
      {| state := setBetterDecision (negb (betterDecision st)) st;
         pending := pending w |}
  | SubmitAdd now =>
      {| state := handleAddDecision now st; pending := pending w |}
  | ClickRemove id =>
      {| state := handleRemoveDecision id st; pending := pending w |}
  | ClickDecide random =>
      if decideDisabled st then w
      else
        let (st', scheduled) := handleDecide random st in
        {| state := st'; pending := pending w ++ scheduled |}
  | ClickBackdrop =>
      {| state := clickBackdrop st; pending := pending w |}
  | TimeoutFires n =>
      match nth_error (pending w) n with
      | None => w
      | Some t =>
          {| state := callback t st; pending := removeNth n (pending w) |}
      end
  | NotificationExpires =>
      match notificationEffect st with
      | None => w
      | Some t => {| state := callback t st; pending := pending w |}
      end
  end.

Definition run (events : list Event) (w : World) : World :=
  fold_left dispatch events w.

(** The registry operations of the interface, as the user performs
    them: fill the three fields, then submit. *)
Definition add (label : JS.str) (weight : Q) (category : Team) (now : Z)
    (st : AppState) : AppState :=
  handleAddDecision now
    (setTeam category (setWeight weight (setDecisionText label st))).

Definition remove (id : Z) (st : AppState) : AppState :=
  handleRemoveDecision id st.

Definition count (st : AppState) : nat := length (decisionItems st).

(** *** Vocabulary of the selection contract *)

(** The eligible set, in registry order. *)
Definition eligible (betterDecision : bool) (items : list DecisionItem)
    : list DecisionItem :=
  filter (fun item => negb (skipped betterDecision item)) items.

Definition sumWeights (items : list DecisionItem) : Q :=
  fold_right (fun item acc => DecisionItem.weight item + acc) 0 items.

(** The draw after the weights of the eligible items of [visited] have
    been subtracted from it. *)
Definition running (betterDecision : bool) (r : Q)
    (visited : list DecisionItem) : Q :=
  r - sumWeights (eligible betterDecision visited).

(** Every weight of the registry is positive: what [handleAddDecision]
    guarantees of the items it appends. *)
Definition positiveWeights (items : list DecisionItem) : Prop :=
  Forall (fun item => 0 < DecisionItem.weight item) items.

(** The loop reaches the item that follows [before] and breaks on it. *)
Definition breaksAfter (betterDecision : bool) (W : Q)
    (before : list DecisionItem) (item : DecisionItem) (r : Q) : Prop :=
  selectedItem (forOf betterDecision W before (enterLoop r)) = None
  /\ selectedItem (forOf betterDecision W (before ++ [item]) (enterLoop r))
     = Some item.

(** The draws of the interval with end points [lo] and [hi]: open at
    [lo], closed at [hi], except that the first interval also holds its
    left end point [0]. *)
Definition inInterval (lo hi r : Q) : Prop :=
  (lo < r \/ (lo == 0 /\ r == 0)) /\ r <= hi.

(** The weights are integers. *)
Definition integerWeights (items : list DecisionItem) : Prop :=
  Forall (fun item => exists z : Z, DecisionItem.weight item == inject_Z z)
         items.

(** 2^53: below it every integer is a binary64 number, and sums and
    differences of integers are computed without rounding. *)
Definition exactIntegerBound : Q := 9007199254740992.

(** The draw in the middle of the unit interval that starts at the
    integer [j]. *)
Definition midpoint (j : Z) : Q := inject_Z j + (1 # 2).

(** How many items of the registry carry a given team. *)
Definition countTeam (t : Team) (items : list DecisionItem) : nat :=
  length (filter (fun item => Team_eqb (DecisionItem.team item) t) items).

(** A failed [add]: the validation message is shown and the registry is
    left as it was. *)
Definition failsValidation (before after : AppState) : Prop :=
  notification after = addErrorMessage
  /\ decisionItems after = decisionItems before.

(** A sequence of registry operations, each [OpAdd] with the clock
    reading of its submission. *)
Inductive Op : Type :=
| OpAdd (label : JS.str) (weight : Q) (category : Team) (now : Z)
| OpRemove (id : Z).

Definition perform (st : AppState) (op : Op) : AppState :=
  match op with
  | OpAdd label weight category now => add label weight category now st
  | OpRemove id => remove id st
  end.

Definition performAll (ops : list Op) (st : AppState) : AppState :=
  fold_left perform ops st.

(** The guard of line 95, negated: the submission passes validation. *)
Definition passesValidation (label : JS.str) (weight : Q) : bool :=
  negb (JS.isEmpty (JS.trim label) || Qle_bool (JS.orElse weight 1) 0).

(** The clock readings of the adds of a sequence that pass validation,
    in order. *)
Fixpoint acceptedReadings (ops : list Op) : list Z :=
  match ops with
  | [] => []
  | OpAdd label weight _ now :: rest =>
      if passesValidation label weight
      then now :: acceptedReadings rest
      else acceptedReadings rest
  | OpRemove _ :: rest => acceptedReadings rest
  end.

Definition ids (st : AppState) : list Z :=
  map DecisionItem.id (decisionItems st).

(** *** A small registry used in the examples *)

Definition tea : DecisionItem :=
  {| DecisionItem.id := 1; DecisionItem.decision := JS.lit "tea";
     DecisionItem.weight := 1; DecisionItem.team := product |}.

Definition walk : DecisionItem :=
  {| DecisionItem.id := 2; DecisionItem.decision := JS.lit "walk";
     DecisionItem.weight := 3; DecisionItem.team := engineering |}.

Definition nap : DecisionItem :=
  {| DecisionItem.id := 3; DecisionItem.decision := JS.lit "nap";
     DecisionItem.weight := 2; DecisionItem.team := engineering |}.

Definition sampleState : AppState :=
  setDecisionItems (fun _ => [tea; walk; nap]) initialState.

Definition productOnly : AppState :=
  setDecisionItems (fun _ => [tea]) initialState.

(** A short session: two items are entered, one per team, and the
    decide button is clicked. *)
Definition sampleSession : list Event :=
  [ ChangeDecisionText (JS.lit "tea"); SubmitAdd 1;
    ChangeDecisionText (JS.lit "walk"); ChangeTeam engineering; SubmitAdd 2;
    ClickDecide (1 # 2) ].

(** Two submissions within the same millisecond. *)
Definition sameMillisecond : list Op :=
  [ OpAdd (JS.lit "tea") 1 product 1000;
    OpAdd (JS.lit "nap") 1 product 1000 ].

(** A clock that steps back between two accepted submissions, with a
    refused submission in between. *)
Definition clockStepsBack : list Op :=
  [ OpAdd (JS.lit "tea") 1 product 11;
    OpAdd (JS.lit "  ") 1 product 11;
    OpAdd (JS.lit "nap") 2 engineering 10 ].

(** *** The popup (rendered markup) *)

(** [(notification || isSpinning)]: the backdrop is rendered. *)
Definition popupVisible (st : AppState) : bool :=
  negb (JS.isEmpty (notification st)) || isSpinning st.

(** [notification.includes("Error")]: the test that picks the colour and
    the icon of the popup box, and that the backdrop click consults. *)
Definition popupIsError (st : AppState) : bool :=
  JS.includes (notification st) (JS.lit "Error").

(** [backgroundColor] of the popup box. *)
Definition popupBackground (st : AppState) : string :=
  if popupIsError st then "#dc2626"%string else "#4f46e5"%string.

(** The end points of the stops of a gradient, and those of a list of
    segments written out as stops (start, then end). *)
Definition stopDegrees (stops : list (string * Q)) : list Q :=
  map snd stops.

Definition segmentStops (segs : list (DecisionItem * (Q * Q))) : list Q :=
  flat_map (fun seg => [fst (snd seg); snd (snd seg)]) segs.

(** The colours of the stops of a wheel of [n] items: each item has two
    stops of its colour. *)
Definition stopColors (n : nat) : list string :=
  flat_map (fun index => [colorAt index; colorAt index]) (seq 0 n).

(** How many items of the registry carry a given id. *)
Definition occurrences (id : Z) (st : AppState) : nat :=
  length (filter (fun item => (DecisionItem.id item =? id)%Z) (decisionItems st)).

(** A timeout that announces a selected item. *)
Definition announces (t : Timeout) (item : DecisionItem) : Prop :=
  callback t = spinDone item.

(** What holds of the component after any sequence of events: the
    weight field is an integer from 1 on, and every pending timeout
    announces an item. *)
Definition settled (w : World) : Prop :=
  (exists z, (1 <= z)%Z /\ weight (state w) = inject_Z z)
  /\ Forall (fun t => exists item, announces t item) (pending w).

(** The sample registry with the better-decision box checked. *)
Definition filteredState : AppState := setBetterDecision true sampleState.

(** A registry whose only engineering item is [walk]. *)
Definition loneEngineer : AppState :=
  setBetterDecision true (setDecisionItems (fun _ => [tea; walk]) initialState).

End Wheel.

(** ** The binary oracle *)

Module Binary.

Local Open Scope Q_scope.

Record AppState : Type := mkState {
  inputValue : JS.str;
  notification : JS.str
}.

Definition initialState : AppState :=
  {| inputValue := []; notification := [] |}.

Definition setInputValue (v : JS.str) (st : AppState) : AppState :=
  {| inputValue := v; notification := notification st |}.

Definition setNotification (v : JS.str) (st : AppState) : AppState :=
  {| inputValue := inputValue st; notification := v |}.

Definition submitErrorMessage : JS.str :=
  JS.lit "Error: Please ask a question so the universe can decide!".

(** [`The universe has decided: You ${decision.toLowerCase()} ${decisionTopic}!`] *)
Definition verdict (decision decisionTopic : JS.str) : JS.str :=
  JS.lit "The universe has decided: You " ++ JS.toLowerCase decision
  ++ JS.lit " " ++ decisionTopic ++ JS.lit "!".

(** [random] is the value read from [Math.random()]. *)
Definition handleSubmit (random : Q) (st : AppState) : AppState :=
  let decisionTopic := JS.trim (inputValue st) in
  if JS.isEmpty decisionTopic then
    setNotification submitErrorMessage st
  else
    let decision :=
      if JS.ltb random (1 # 2) then JS.lit "SHOULD" else JS.lit "SHOULDNT" in
    let message := verdict decision decisionTopic in
    setInputValue [] (setNotification message st).

(** The operation of the interface: type the topic, then submit. *)
Definition decide (topic : JS.str) (random : Q) (st : AppState) : AppState :=
  handleSubmit random (setInputValue topic st).

(** The two phrases a verdict is looked up for. *)
Definition shouldPhrase (topic : JS.str) : JS.str :=
  JS.lit "should " ++ topic.

Definition shouldntPhrase (topic : JS.str) : JS.str :=
  JS.lit "shouldnt " ++ topic.

(** [backgroundColor] of the popup box:
    [notification.startsWith("Error") ? "#dc2626" : "#4f46e5"]. *)
Definition popupBackground (st : AppState) : string :=
  if JS.startsWith (notification st) (JS.lit "Error")
  then "#dc2626"%string else "#4f46e5"%string.

(** [{notification && (...)}]: the popup is rendered. *)
Definition popupVisible (st : AppState) : bool :=
  negb (JS.isEmpty (notification st)).

End Binary.

(** ** The arithmetic of [handleDecide] on binary64

    Lines 118-175 of the wheel again, with every [number] a binary64
    value and every operation the correctly rounded one of the source.
    Only what the arithmetic decides is kept: which of its three returns
    the handler takes and, on the last one, the item it announces and the
    rotation it stores. *)

Module Wheel64.

Local Open Scope float_scope.

Module DecisionItem.
Record t : Type := mk {
  id : Z;
  decision : JS.str;
  weight : float;
  team : Wheel.Team
}.
End DecisionItem.
Abbreviation DecisionItem := DecisionItem.t.

(** [betterDecision && item.team == "product"]: the item is skipped. *)
Definition skipped (betterDecision : bool) (item : DecisionItem) : bool :=
  betterDecision && Wheel.Team_eqb (DecisionItem.team item) Wheel.product.

(** The counting [forEach] of lines 121-124. *)
Definition countProduct (items : list DecisionItem) : Z :=
  fold_left
    (fun productDecisions decision =>
       if Wheel.Team_eqb (DecisionItem.team decision) Wheel.product
       then (productDecisions + 1)%Z else productDecisions)
    items 0%Z.

(** The guard of line 126. *)
Definition lacksTeam (items : list DecisionItem) : bool :=
  let productDecisions := countProduct items in
  (productDecisions <? 1)%Z
  || (Z.of_nat (length items) - productDecisions <? 1)%Z.

(** The [reduce] of lines 137-141. *)
Definition totalWeight (betterDecision : bool) (items : list DecisionItem)
    : float :=
  fold_left
    (fun sum item =>
       sum + (if skipped betterDecision item then 0 else DecisionItem.weight item))
    items 0.

(** The [let] variables the selection loop updates. *)
Record Walk : Type := mkWalk {
  randomNum : float;
  selectedItem : option DecisionItem;
  cumulativeWeight : float;
  winningEndDegree : float;
  winningStartDegree : float
}.

(** Their values on loop entry (lines 142-147). *)
Definition enterLoop (randomNum0 : float) : Walk :=
  {| randomNum := randomNum0;
     selectedItem := None;
     cumulativeWeight := 0;
     winningEndDegree := 0;
     winningStartDegree := 0 |}.

(** The [for ... of] loop of lines 149-162, with its [continue] and
    [break]. *)
Fixpoint forOf (betterDecision : bool) (totalWeight : float)
    (items : list DecisionItem) (w : Walk) : Walk :=
  match items with
  | [] => w
  | item :: rest =>
      if skipped betterDecision item then
        forOf betterDecision totalWeight rest w
      else
        let segmentDegrees := (DecisionItem.weight item / totalWeight) * 360 in
        let winningStartDegree' := cumulativeWeight w in
        let winningEndDegree' := cumulativeWeight w + segmentDegrees in
        let randomNum' := randomNum w - DecisionItem.weight item in
        if randomNum' <=? 0 then
          {| randomNum := randomNum';
             selectedItem := Some item;
             cumulativeWeight := cumulativeWeight w;
             winningEndDegree := winningEndDegree';
             winningStartDegree := winningStartDegree' |}
        else
          forOf betterDecision totalWeight rest
            {| randomNum := randomNum';
               selectedItem := selectedItem w;
               cumulativeWeight := cumulativeWeight w + segmentDegrees;
               winningEndDegree := winningEndDegree';
               winningStartDegree := winningStartDegree' |}
  end.

(** The loop run on a draw [r]. *)
Definition selectionWalk (betterDecision : bool) (items : list DecisionItem)
    (r : float) : Walk :=
  forOf betterDecision (totalWeight betterDecision items) items (enterLoop r).

(** The segment bounds the loop body assigns to each item it visits
    (lines 150-153 and 161), for all the items that are not skipped. *)
Fixpoint segmentsFrom (betterDecision : bool) (totalWeight : float)
    (items : list DecisionItem) (cumulativeWeight : float)
    : list (DecisionItem * (float * float)) :=
  match items with
  | [] => []
  | item :: rest =>
      if skipped betterDecision item then
        segmentsFrom betterDecision totalWeight rest cumulativeWeight
      else
        let segmentDegrees := (DecisionItem.weight item / totalWeight) * 360 in
        (item, (cumulativeWeight, cumulativeWeight + segmentDegrees))
        :: segmentsFrom betterDecision totalWeight rest
             (cumulativeWeight + segmentDegrees)
  end.

Definition segments (betterDecision : bool) (items : list DecisionItem)
    : list (DecisionItem * (float * float)) :=
  segmentsFrom betterDecision (totalWeight betterDecision items) items 0.

Definition fullSpins : float := 5.

(** Lines 167-173. *)
Definition finalRotation (winningStartDegree winningEndDegree : float) : float :=
  let targetCenterDegree := (winningStartDegree + winningEndDegree) / 2 in
  let finalDegree := 360 - targetCenterDegree in
  finalDegree + fullSpins * 360.

(** The three ways out of [handleDecide]: the error of line 127, the
    silent return of line 164, and the spin towards a selected item. *)
Inductive Outcome : Type :=
| Refused
| NothingSelected
| Spin (selectedItem : DecisionItem) (finalDegree : float).

(** [random] is the value read from [Math.random()]. *)
Definition handleDecide (random : float) (betterDecision : bool)
    (decisionItems : list DecisionItem) : Outcome :=
  if lacksTeam decisionItems then Refused
  else
    let w :=
      selectionWalk betterDecision decisionItems
        (random * totalWeight betterDecision decisionItems) in
    match selectedItem w with
    | None => NothingSelected
    | Some item =>
        Spin item (finalRotation (winningStartDegree w) (winningEndDegree w))
    end.

(** The eligible set, in registry order. *)
Definition eligible (betterDecision : bool) (items : list DecisionItem)
    : list DecisionItem :=
  filter (fun item => negb (skipped betterDecision item)) items.

(** *** Registries used in the examples *)

Definition entry (id : Z) (weight : float) (team : Wheel.Team) : DecisionItem :=
  {| DecisionItem.id := id; DecisionItem.decision := JS.lit "item";
     DecisionItem.weight := weight; DecisionItem.team := team |}.


(** Eight items of weight 1, then one of weight 2^54. *)
Definition heavyTail : list DecisionItem :=
  [ entry 1 1 Wheel.engineering; entry 2 1 Wheel.engineering;
    entry 3 1 Wheel.engineering; entry 4 1 Wheel.engineering;
    entry 5 1 Wheel.engineering; entry 6 1 Wheel.engineering;
    entry 7 1 Wheel.engineering; entry 8 1 Wheel.engineering;
    entry 9 0x1p+54 Wheel.product ].

(** One item of weight 2^53, then three of weight 3. *)
Definition heavyHead : list DecisionItem :=
  [ entry 1 0x1p+53 Wheel.product; entry 2 3 Wheel.engineering;
    entry 3 3 Wheel.engineering; entry 4 3 Wheel.engineering ].

End Wheel64.

(** * Properties of the weighted wheel *)

Module WheelFacts.

Import Wheel.
Local Open Scope Q_scope.
Unset Implicit Arguments.

(** ** The precondition of [handleDecide] *)

Section Precondition.

Lemma countProduct_from (items : list DecisionItem) (n : Z) :
  fold_left
    (fun productDecisions decision =>
       if Team_eqb (DecisionItem.team decision) product
       then (productDecisions + 1)%Z else productDecisions)
    items n
  = (n + Z.of_nat (countTeam product items))%Z.
Proof.
  revert n; induction items as [|item rest IH]; intro n; simpl.
  - unfold countTeam; simpl; lia.
  - rewrite IH. unfold countTeam; simpl.
    destruct (Team_eqb (DecisionItem.team item) product); simpl; lia.
Qed.

Lemma countProduct_countTeam (items : list DecisionItem) :
  countProduct items = Z.of_nat (countTeam product items).
Proof. unfold countProduct. rewrite countProduct_from. lia. Qed.

Lemma countTeam_total (items : list DecisionItem) :
  (countTeam product items + countTeam engineering items)%nat
  = length items.
Proof.
  unfold countTeam; induction items as [|item rest IH]; simpl; [easy|].
  destruct (DecisionItem.team item); simpl; lia.
Qed.

Lemma lacksTeam_true (items : list DecisionItem) :
  lacksTeam items = true
  <-> countTeam product items = 0%nat \/ countTeam engineering items = 0%nat.
Proof.
  unfold lacksTeam. rewrite countProduct_countTeam.
  pose proof (countTeam_total items) as Htot.
  rewrite orb_true_iff, !Z.ltb_lt, <- Htot. clear Htot.
  generalize (countTeam product items) (countTeam engineering items).
  intros p e. lia.
Qed.

Lemma lacksTeam_false (items : list DecisionItem) :
  lacksTeam items = false
  <-> (0 < countTeam product items)%nat
      /\ (0 < countTeam engineering items)%nat.
Proof.
  pose proof (lacksTeam_true items) as H.
  destruct (lacksTeam items); split; intro H'; try discriminate.
  - destruct H as [H _]. specialize (H eq_refl). lia.
  - destruct H as [_ H].
    destruct (Nat.eq_dec (countTeam product items) 0) as [E|E];
      [ specialize (H (or_introl E)); discriminate | ].
    destruct (Nat.eq_dec (countTeam engineering items) 0) as [E'|E'];
      [ specialize (H (or_intror E')); discriminate | lia ].
  - reflexivity.
Qed.

(** An engineering item is never skipped, so a registry that passes
    the guard has an eligible item. *)
Lemma eligible_nonempty (bd : bool) (items : list DecisionItem) :
  lacksTeam items = false -> eligible bd items <> [].
Proof.
  rewrite lacksTeam_false. intros [_ Heng].
  unfold countTeam in Heng. unfold eligible.
  induction items as [|item rest IH]; simpl in *; [lia|].
  unfold skipped at 1.
  destruct (DecisionItem.team item) eqn:Ht; simpl in *.
  - destruct bd; simpl; [auto | discriminate].
  - rewrite andb_false_r. simpl. discriminate.
Qed.

End Precondition.

(** ** Sums of weights *)

Section Weights.

Lemma eligible_app (bd : bool) (l1 l2 : list DecisionItem) :
  eligible bd (l1 ++ l2) = eligible bd l1 ++ eligible bd l2.
Proof. unfold eligible. apply filter_app. Qed.

Lemma eligible_cons_kept (bd : bool) (item : DecisionItem) (l : list DecisionItem) :
  skipped bd item = false -> eligible bd (item :: l) = item :: eligible bd l.
Proof. intro H. unfold eligible. simpl. rewrite H. reflexivity. Qed.

Lemma eligible_cons_skipped (bd : bool) (item : DecisionItem) (l : list DecisionItem) :
  skipped bd item = true -> eligible bd (item :: l) = eligible bd l.
Proof. intro H. unfold eligible. simpl. rewrite H. reflexivity. Qed.

Lemma sumWeights_cons (item : DecisionItem) (l : list DecisionItem) :
  sumWeights (item :: l) = DecisionItem.weight item + sumWeights l.
Proof. reflexivity. Qed.

Lemma sumWeights_app (l1 l2 : list DecisionItem) :
  sumWeights (l1 ++ l2) == sumWeights l1 + sumWeights l2.
Proof.
  induction l1 as [|item rest IH]; simpl.
  - ring.
  - rewrite IH. ring.
Qed.

Lemma positiveWeights_eligible (bd : bool) (l : list DecisionItem) :
  positiveWeights l -> positiveWeights (eligible bd l).
Proof.
  unfold positiveWeights, eligible. rewrite !Forall_forall.
  intros H item Hin. apply filter_In in Hin. apply H, Hin.
Qed.

Lemma positiveWeights_app (l1 l2 : list DecisionItem) :
  positiveWeights (l1 ++ l2) <-> positiveWeights l1 /\ positiveWeights l2.
Proof. unfold positiveWeights. apply Forall_app. Qed.

Lemma sumWeights_nonneg (l : list DecisionItem) :
  positiveWeights l -> 0 <= sumWeights l.
Proof.
  induction 1 as [|item rest Hpos _ IH]; simpl; lra.
Qed.

Lemma sumWeights_pos (l : list DecisionItem) :
  positiveWeights l -> l <> [] -> 0 < sumWeights l.
Proof.
  intros Hpos Hne. destruct l as [|item rest]; [congruence|].
  inversion Hpos as [|? ? Hitem Hrest]; subst. simpl.
  pose proof (sumWeights_nonneg _ Hrest). lra.
Qed.

Lemma totalWeight_from (bd : bool) (items : list DecisionItem) (acc : Q) :
  fold_left
    (fun sum item =>
       sum + (if skipped bd item then 0 else DecisionItem.weight item))
    items acc
  == acc + sumWeights (eligible bd items).
Proof.
  revert acc; induction items as [|item rest IH]; intro acc; simpl.
  - ring.
  - rewrite IH. unfold eligible; simpl.
    destruct (skipped bd item); simpl; ring.
Qed.

Lemma totalWeight_sum (bd : bool) (items : list DecisionItem) :
  totalWeight bd items == sumWeights (eligible bd items).
Proof. unfold totalWeight. rewrite totalWeight_from. ring. Qed.

Lemma totalWeight_pos (bd : bool) (items : list DecisionItem) :
  positiveWeights items -> lacksTeam items = false ->
  0 < totalWeight bd items.
Proof.
  intros Hpos Hpre. rewrite totalWeight_sum.
  apply sumWeights_pos.
  - now apply positiveWeights_eligible.
  - now apply eligible_nonempty.
Qed.

End Weights.

(** ** The selection loop *)

Section Loop.

Variable bd : bool.
Variable W : Q.

Lemma Qle_bool_false (x y : Q) : Qle_bool x y = false <-> y < x.
Proof.
  split; intro H.
  - apply Qnot_le_lt. intro Hle. apply Qle_bool_iff in Hle. congruence.
  - destruct (Qle_bool x y) eqn:E; [|reflexivity].
    apply Qle_bool_iff in E. lra.
Qed.

(** Appending items: the loop over [l1 ++ l2] stops inside [l1] when
    it breaks there, and otherwise goes on through [l2]. *)
Lemma forOf_app (l1 l2 : list DecisionItem) (w : Walk) :
  selectedItem w = None ->
  forOf bd W (l1 ++ l2) w
  = match selectedItem (forOf bd W l1 w) with
    | Some _ => forOf bd W l1 w
    | None => forOf bd W l2 (forOf bd W l1 w)
    end.
Proof.
  revert w; induction l1 as [|item rest IH]; intros w Hw; simpl.
  - rewrite Hw. reflexivity.
  - destruct (skipped bd item); [now apply IH|].
    destruct (Qle_bool (randomNum w - DecisionItem.weight item) 0).
    + reflexivity.
    + now apply IH.
Qed.

Lemma forOf_prefix_none (l1 l2 : list DecisionItem) (w : Walk) :
  selectedItem w = None ->
  selectedItem (forOf bd W (l1 ++ l2) w) = None ->
  selectedItem (forOf bd W l1 w) = None.
Proof.
  intros Hw H. rewrite forOf_app in H by assumption.
  destruct (selectedItem (forOf bd W l1 w)) eqn:E; [|reflexivity].
  congruence.
Qed.

(** What the variables hold while no item has been selected. *)
Lemma forOf_none_state (l : list DecisionItem) (w : Walk) :
  selectedItem w = None ->
  selectedItem (forOf bd W l w) = None ->
  randomNum (forOf bd W l w) == randomNum w - sumWeights (eligible bd l)
  /\ cumulativeWeight (forOf bd W l w)
     == cumulativeWeight w + sumWeights (eligible bd l) / W * 360.
Proof.
  revert w; induction l as [|item rest IH]; intros w Hw Hnone;
    cbn [forOf] in *.
  - simpl. split; unfold Qdiv; ring.
  - destruct (skipped bd item) eqn:Hs.
    + rewrite (eligible_cons_skipped _ _ _ Hs). now apply IH.
    + rewrite (eligible_cons_kept _ _ _ Hs). simpl.
      destruct (Qle_bool (randomNum w - DecisionItem.weight item) 0);
        [simpl in Hnone; discriminate|].
      apply IH in Hnone as [Hr Hc]; [|exact Hw].
      cbn [randomNum cumulativeWeight] in Hr, Hc.
      split; [rewrite Hr; ring | rewrite Hc; unfold Qdiv; ring].
Qed.

(** One step of the loop on an item that is not skipped. *)
Lemma forOf_single (item : DecisionItem) (w : Walk) :
  skipped bd item = false ->
  selectedItem w = None ->
  (selectedItem (forOf bd W [item] w) = Some item
   <-> randomNum w - DecisionItem.weight item <= 0)
  /\ (selectedItem (forOf bd W [item] w) = None
      <-> 0 < randomNum w - DecisionItem.weight item).
Proof.
  intros Hs Hw. simpl. rewrite Hs.
  destruct (Qle_bool (randomNum w - DecisionItem.weight item) 0) eqn:E;
    simpl.
  - apply Qle_bool_iff in E. repeat split; intros; try easy. lra.
  - apply Qle_bool_false in E. rewrite Hw.
    repeat split; intros; try easy. lra.
Qed.

(** A selection is a break at some position of the list. *)
Lemma forOf_some_split (l : list DecisionItem) (w : Walk) (item : DecisionItem) :
  selectedItem w = None ->
  selectedItem (forOf bd W l w) = Some item ->
  exists before after,
    l = before ++ item :: after
    /\ skipped bd item = false
    /\ selectedItem (forOf bd W before w) = None
    /\ randomNum (forOf bd W before w) - DecisionItem.weight item <= 0
    /\ winningStartDegree (forOf bd W l w)
       = cumulativeWeight (forOf bd W before w)
    /\ winningEndDegree (forOf bd W l w)
       = cumulativeWeight (forOf bd W before w)
         + DecisionItem.weight item / W * 360.
Proof.
  revert w; induction l as [|item0 rest IH]; intros w Hw Hsome; simpl in *.
  - congruence.
  - destruct (skipped bd item0) eqn:Hs.
    + destruct (IH _ Hw Hsome) as (before & after & -> & H1 & H2 & H3 & H4 & H5).
      exists (item0 :: before), after. simpl. rewrite Hs. auto 6.
    + destruct (Qle_bool (randomNum w - DecisionItem.weight item0) 0) eqn:E.
      * simpl in Hsome. injection Hsome as ->.
        exists [], rest. simpl. apply Qle_bool_iff in E. auto 6.
      * apply IH in Hsome as (before & after & -> & H1 & H2 & H3 & H4 & H5);
          [|exact Hw].
        exists (item0 :: before), after. simpl. rewrite Hs, E. auto 6.
Qed.

(** The loop does not break while the running value stays positive. *)
Lemma forOf_stays_none (l : list DecisionItem) (w : Walk) :
  selectedItem w = None ->
  (forall before item after,
      l = before ++ item :: after -> skipped bd item = false ->
      0 < randomNum w - sumWeights (eligible bd (before ++ [item]))) ->
  selectedItem (forOf bd W l w) = None.
Proof.
  revert w; induction l as [|item0 rest IH]; intros w Hw Hpos;
    cbn [forOf].
  - assumption.
  - destruct (skipped bd item0) eqn:Hs.
    + apply IH; [assumption|]. intros before item after -> Hitem.
      specialize (Hpos (item0 :: before) item after eq_refl Hitem).
      cbn [app] in Hpos.
      now rewrite (eligible_cons_skipped _ _ _ Hs) in Hpos.
    + pose proof (Hpos [] item0 rest eq_refl Hs) as H0.
      cbn [app] in H0.
      rewrite (eligible_cons_kept _ _ _ Hs) in H0. simpl in H0.
      assert (E : Qle_bool (randomNum w - DecisionItem.weight item0) 0 = false)
        by (apply Qle_bool_false; lra).
      rewrite E. apply IH; [assumption|]. cbn [randomNum].
      intros before item after -> Hitem.
      specialize (Hpos (item0 :: before) item after eq_refl Hitem).
      cbn [app] in Hpos.
      rewrite (eligible_cons_kept _ _ _ Hs) in Hpos.
      rewrite sumWeights_cons in Hpos. lra.
Qed.

(** Conversely, every item passed without a break left the running
    value positive. *)
Lemma forOf_none_positive (l : list DecisionItem) (w : Walk) :
  selectedItem w = None ->
  selectedItem (forOf bd W l w) = None ->
  forall before item after,
    l = before ++ item :: after -> skipped bd item = false ->
    0 < randomNum w - sumWeights (eligible bd (before ++ [item])).
Proof.
  intros Hw Hnone before item after -> Hs.
  replace (before ++ item :: after) with ((before ++ [item]) ++ after) in Hnone
    by (rewrite <- app_assoc; reflexivity).
  apply forOf_prefix_none in Hnone; [|assumption].
  pose proof (forOf_prefix_none _ _ _ Hw Hnone) as Hbefore.
  rewrite forOf_app in Hnone by assumption. rewrite Hbefore in Hnone.
  apply (forOf_single _ _ Hs Hbefore) in Hnone.
  destruct (forOf_none_state _ _ Hw Hbefore) as [Hr _].
  rewrite eligible_app, sumWeights_app, (eligible_cons_kept _ _ _ Hs).
  simpl. rewrite Hr in Hnone. lra.
Qed.

(** The bounds the loop reports are those of a computed segment. *)
Lemma forOf_segment (l : list DecisionItem) (w : Walk) (item : DecisionItem) :
  selectedItem w = None ->
  selectedItem (forOf bd W l w) = Some item ->
  In (item, (winningStartDegree (forOf bd W l w),
             winningEndDegree (forOf bd W l w)))
     (segmentsFrom bd W l (cumulativeWeight w)).
Proof.
  revert w; induction l as [|item0 rest IH]; intros w Hw Hsome; simpl in *.
  - congruence.
  - destruct (skipped bd item0); [now apply IH|].
    destruct (Qle_bool (randomNum w - DecisionItem.weight item0) 0).
    + simpl in *. injection Hsome as ->. now left.
    + right. apply IH in Hsome; [exact Hsome | exact Hw].
Qed.

(** Without a break the running value ends positive, as soon as one
    item was visited. *)
Lemma forOf_none_ends_positive (l : list DecisionItem) (w : Walk) :
  selectedItem w = None ->
  selectedItem (forOf bd W l w) = None ->
  eligible bd l <> [] \/ 0 < randomNum w ->
  0 < randomNum (forOf bd W l w).
Proof.
  revert w; induction l as [|item rest IH]; intros w Hw Hnone Hcase;
    cbn [forOf] in *.
  - destruct Hcase as [Hne|Hpos]; [now elim Hne | assumption].
  - destruct (skipped bd item) eqn:Hs.
    + apply IH; try assumption.
      now rewrite (eligible_cons_skipped _ _ _ Hs) in Hcase.
    + destruct (Qle_bool (randomNum w - DecisionItem.weight item) 0) eqn:E;
        [cbn in Hnone; discriminate|].
      apply Qle_bool_false in E.
      apply IH; [exact Hw | exact Hnone | right; exact E].
Qed.

Lemma eligible_empty_no_item (before after : list DecisionItem)
    (item : DecisionItem) :
  skipped bd item = false -> eligible bd (before ++ item :: after) <> [].
Proof.
  intros Hs H. rewrite eligible_app, (eligible_cons_kept _ _ _ Hs) in H.
  now apply app_eq_nil in H as [_ H].
Qed.

(** The draws for which the loop breaks on a given position of the
    registry. *)
Lemma breaksAfter_interval (before after : list DecisionItem)
    (item : DecisionItem) (r : Q) :
  positiveWeights (before ++ item :: after) ->
  skipped bd item = false ->
  0 <= r ->
  breaksAfter bd W before item r
  <-> inInterval (sumWeights (eligible bd before))
                 (sumWeights (eligible bd (before ++ [item]))) r.
Proof.
  intros Hpos Hs Hr.
  assert (Hhi : sumWeights (eligible bd (before ++ [item]))
                == sumWeights (eligible bd before) + DecisionItem.weight item).
  { rewrite eligible_app, sumWeights_app, (eligible_cons_kept _ _ _ Hs).
    simpl. ring. }
  unfold breaksAfter, inInterval. split.
  - intros [Hnone Hsome].
    destruct (forOf_none_state before (enterLoop r) eq_refl Hnone) as [Hrand _].
    cbn [randomNum enterLoop] in Hrand.
    rewrite forOf_app, Hnone in Hsome by reflexivity.
    apply (forOf_single item _ Hs Hnone) in Hsome.
    split; [|lra].
    destruct (eligible bd before) as [|e0 es] eqn:He.
    + simpl. destruct (Qlt_le_dec 0 r) as [Hlt|Hle]; [now left|].
      right. split; [reflexivity | lra].
    + left.
      assert (Hend : 0 < randomNum (forOf bd W before (enterLoop r))).
      { apply forOf_none_ends_positive; [reflexivity | assumption |].
        left. rewrite He. discriminate. }
      lra.
  - intros [Hlo Hle].
    assert (Hnone : selectedItem (forOf bd W before (enterLoop r)) = None).
    { apply forOf_stays_none; [reflexivity|].
      intros b1 it1 a1 Hsplit Hs1. cbn [randomNum enterLoop].
      assert (Hpart : sumWeights (eligible bd before)
                      == sumWeights (eligible bd (b1 ++ [it1]))
                         + sumWeights (eligible bd a1)).
      { rewrite Hsplit.
        replace (b1 ++ it1 :: a1) with ((b1 ++ [it1]) ++ a1)
          by (rewrite <- app_assoc; reflexivity).
        rewrite eligible_app, sumWeights_app. reflexivity. }
      assert (Ha1 : 0 <= sumWeights (eligible bd a1)).
      { apply sumWeights_nonneg, positiveWeights_eligible.
        apply positiveWeights_app in Hpos as [Hb _].
        rewrite Hsplit in Hb.
        apply positiveWeights_app in Hb as [_ Hb].
        now inversion Hb. }
      destruct Hlo as [Hlt|[Hz _]]; [lra|].
      exfalso.
      assert (Hposb : 0 < sumWeights (eligible bd before)).
      { apply sumWeights_pos.
        - apply positiveWeights_eligible.
          now apply positiveWeights_app in Hpos as [Hb _].
        - rewrite Hsplit. now apply eligible_empty_no_item. }
      lra. }
    split; [assumption|].
    rewrite forOf_app, Hnone by reflexivity.
    apply (forOf_single item _ Hs Hnone).
    destruct (forOf_none_state before (enterLoop r) eq_refl Hnone) as [Hrand _].
    cbn [randomNum enterLoop] in Hrand. lra.
Qed.

(** A break after [before] is the selection of the whole loop. *)
Lemma breaksAfter_selected (before after : list DecisionItem)
    (item : DecisionItem) (r : Q) :
  breaksAfter bd W before item r ->
  selectedItem (forOf bd W (before ++ item :: after) (enterLoop r))
  = Some item.
Proof.
  intros [_ Hsome].
  replace (before ++ item :: after) with ((before ++ [item]) ++ after)
    by (rewrite <- app_assoc; reflexivity).
  rewrite forOf_app by reflexivity. now rewrite Hsome.
Qed.

(** *** Segments *)

Lemma segmentsFrom_items (l : list DecisionItem) (c : Q) :
  map fst (segmentsFrom bd W l c) = eligible bd l.
Proof.
  revert c; induction l as [|item rest IH]; intro c; cbn [segmentsFrom].
  - reflexivity.
  - destruct (skipped bd item) eqn:Hs.
    + now rewrite (eligible_cons_skipped _ _ _ Hs).
    + rewrite (eligible_cons_kept _ _ _ Hs). cbn [map fst]. now rewrite IH.
Qed.

Lemma segmentsFrom_width (l : list DecisionItem) (c : Q)
    (item : DecisionItem) (s e : Q) :
  In (item, (s, e)) (segmentsFrom bd W l c) ->
  e - s == DecisionItem.weight item / W * 360.
Proof.
  revert c; induction l as [|item0 rest IH]; intro c; cbn [segmentsFrom].
  - intros [].
  - destruct (skipped bd item0); [apply IH|].
    intros [Heq|Hin]; [|now apply IH in Hin].
    injection Heq as <- <- <-. ring.
Qed.

Lemma share_nonneg (x : Q) : 0 < W -> 0 <= x -> 0 <= x / W * 360.
Proof.
  intros HW Hx. apply Qmult_le_0_compat; [|lra].
  apply Qmult_le_0_compat; [assumption|].
  apply Qlt_le_weak, Qinv_lt_0_compat, HW.
Qed.

Lemma share_pos (x : Q) : 0 < W -> 0 < x -> 0 < x / W * 360.
Proof.
  intros HW Hx. apply Qmult_lt_0_compat; [|lra].
  apply Qmult_lt_0_compat; [assumption|].
  apply Qinv_lt_0_compat, HW.
Qed.

(** Every segment is a proper arc between the running position and the
    position reached after the last eligible item. *)
Lemma segmentsFrom_bounds (l : list DecisionItem) (c : Q)
    (item : DecisionItem) (s e : Q) :
  0 < W ->
  positiveWeights l ->
  In (item, (s, e)) (segmentsFrom bd W l c) ->
  c <= s /\ s < e /\ e <= c + sumWeights (eligible bd l) / W * 360.
Proof.
  intros HW. revert c; induction l as [|item0 rest IH]; intros c Hpos;
    cbn [segmentsFrom].
  - intros [].
  - inversion Hpos as [|? ? Hitem0 Hrest]; subst.
    destruct (skipped bd item0) eqn:Hs.
    + rewrite (eligible_cons_skipped _ _ _ Hs). now apply IH.
    + rewrite (eligible_cons_kept _ _ _ Hs), sumWeights_cons.
      pose proof (share_pos _ HW Hitem0) as Hd.
      pose proof (share_nonneg (sumWeights (eligible bd rest)) HW
                    (sumWeights_nonneg _ (positiveWeights_eligible bd _ Hrest)))
        as Hr.
      assert (Hsplit : (DecisionItem.weight item0
                        + sumWeights (eligible bd rest)) / W * 360
                       == DecisionItem.weight item0 / W * 360
                          + sumWeights (eligible bd rest) / W * 360)
        by (unfold Qdiv; ring).
      intros [Heq|Hin].
      * injection Heq as <- <- <-. repeat split; lra.
      * apply (IH _ Hrest) in Hin as (H1 & H2 & H3). repeat split; lra.
Qed.

Lemma segmentsFrom_head (l : list DecisionItem) (c : Q)
    (item : DecisionItem) (s e : Q) (tl : list (DecisionItem * (Q * Q))) :
  segmentsFrom bd W l c = (item, (s, e)) :: tl -> s = c.
Proof.
  revert c; induction l as [|item0 rest IH]; intro c; cbn [segmentsFrom].
  - discriminate.
  - destruct (skipped bd item0); [apply IH|].
    intro H. now injection H.
Qed.

Lemma segmentsFrom_adjacent (l : list DecisionItem) (c : Q) (k : nat)
    (i1 i2 : DecisionItem) (s1 e1 s2 e2 : Q) :
  nth_error (segmentsFrom bd W l c) k = Some (i1, (s1, e1)) ->
  nth_error (segmentsFrom bd W l c) (S k) = Some (i2, (s2, e2)) ->
  e1 = s2.
Proof.
  revert c k; induction l as [|item0 rest IH]; intros c k;
    cbn [segmentsFrom].
  - destruct k; discriminate.
  - destruct (skipped bd item0); [apply IH|].
    destruct k as [|k]; cbn [nth_error].
    + intros H1 H2. injection H1 as _ _ <-.
      destruct (segmentsFrom bd W rest (c + DecisionItem.weight item0 / W * 360))
        as [|[i [s e]] tl] eqn:E; [discriminate|].
      cbn [nth_error] in H2. injection H2 as _ <- _.
      symmetry. eapply segmentsFrom_head, E.
    + apply IH.
Qed.

Lemma segmentsFrom_last (l : list DecisionItem) (c : Q)
    (d : DecisionItem * (Q * Q)) :
  eligible bd l <> [] ->
  snd (snd (last (segmentsFrom bd W l c) d))
  == c + sumWeights (eligible bd l) / W * 360.
Proof.
  revert c; induction l as [|item rest IH]; intros c Hne;
    cbn [segmentsFrom].
  - now elim Hne.
  - destruct (skipped bd item) eqn:Hs.
    + rewrite (eligible_cons_skipped _ _ _ Hs) in *. now apply IH.
    + rewrite (eligible_cons_kept _ _ _ Hs), sumWeights_cons.
      pose proof (segmentsFrom_items rest
                    (c + DecisionItem.weight item / W * 360)) as Hmap.
      destruct (segmentsFrom bd W rest
                  (c + DecisionItem.weight item / W * 360))
        as [|sg tl] eqn:E.
      * cbn [map] in Hmap. rewrite <- Hmap.
        simpl. unfold Qdiv. ring.
      * change (last ((item, (c, c + DecisionItem.weight item / W * 360))
                      :: sg :: tl) d)
          with (last (sg :: tl) d).
        rewrite <- E.
        eapply Qeq_trans;
          [apply IH; rewrite <- Hmap; discriminate|].
        unfold Qdiv. ring.
Qed.

End Loop.

(** ** The selection contract *)

Section Selection.

Lemma walk_selects (bd : bool) (items : list DecisionItem) (r : Q) :
  lacksTeam items = false ->
  r < totalWeight bd items ->
  exists item, selectedItem (selectionWalk bd items r) = Some item.
Proof.
  intros Hpre Hr. unfold selectionWalk.
  destruct (selectedItem
              (forOf bd (totalWeight bd items) items (enterLoop r)))
    as [item|] eqn:E; [now exists item|].
  exfalso.
  destruct (forOf_none_state bd _ items (enterLoop r) eq_refl E) as [Hrand _].
  assert (Hend : 0 < randomNum
                       (forOf bd (totalWeight bd items) items (enterLoop r))).
  { apply forOf_none_ends_positive; [reflexivity | assumption |].
    left. now apply eligible_nonempty. }
  cbn [randomNum enterLoop] in Hrand.
  pose proof (totalWeight_sum bd items). lra.
Qed.

Lemma kept_in_eligible (bd : bool) (before after : list DecisionItem)
    (item : DecisionItem) :
  skipped bd item = false ->
  In item (eligible bd (before ++ item :: after)).
Proof.
  intro Hs. unfold eligible. apply filter_In. split.
  - apply in_elt.
  - now rewrite Hs.
Qed.

(** The loop selects the first item, skipped items left out, at which
    the draw minus the weights visited so far is no longer positive. *)
Lemma first_nonpositive_item_wins (bd : bool) (items : list DecisionItem) (r : Q) :
  lacksTeam items = false ->
  r < totalWeight bd items ->
  exists before item after,
    items = before ++ item :: after
    /\ skipped bd item = false
    /\ selectedItem (selectionWalk bd items r) = Some item
    /\ running bd r (before ++ [item]) <= 0
    /\ forall b1 it1 a1,
         before = b1 ++ it1 :: a1 -> skipped bd it1 = false ->
         0 < running bd r (b1 ++ [it1]).
Proof.
  intros Hpre HrW.
  destruct (walk_selects bd items r Hpre HrW) as [item Hsel].
  unfold selectionWalk in Hsel.
  destruct (forOf_some_split bd _ items (enterLoop r) item eq_refl Hsel)
    as (before & after & Hsplit & Hs & Hnone & Hle & _).
  exists before, item, after.
  split; [assumption|]. split; [assumption|]. split; [assumption|].
  split.
  - destruct (forOf_none_state bd _ before (enterLoop r) eq_refl Hnone)
      as [Hrand _].
    cbn [randomNum enterLoop] in Hrand. unfold running.
    rewrite eligible_app, sumWeights_app, (eligible_cons_kept _ _ _ Hs).
    simpl. lra.
  - intros b1 it1 a1 Hb Hs1. unfold running.
    apply (forOf_none_positive bd _ before (enterLoop r) eq_refl Hnone
             b1 it1 a1 Hb Hs1).
Qed.

(** The draws for which the loop breaks on a given eligible position:
    those between the sum of the eligible weights before it and that sum
    plus the weight of the item. *)
Lemma position_is_won_on_interval
    (bd : bool) (before after : list DecisionItem) (item : DecisionItem) (r : Q) :
  positiveWeights (before ++ item :: after) ->
  skipped bd item = false ->
  0 <= r ->
  let items := before ++ item :: after in
  let W := totalWeight bd items in
  let lo := sumWeights (eligible bd before) in
  let hi := sumWeights (eligible bd (before ++ [item])) in
  (breaksAfter bd W before item r <-> inInterval lo hi r)
  /\ (breaksAfter bd W before item r ->
      selectedItem (selectionWalk bd items r) = Some item)
  /\ 0 <= lo /\ hi <= W
  /\ hi - lo == DecisionItem.weight item.
Proof.
  intros Hpos Hs Hr0 items W lo hi.
  assert (Hhi : hi == lo + DecisionItem.weight item).
  { unfold hi, lo.
    rewrite eligible_app, sumWeights_app, (eligible_cons_kept _ _ _ Hs).
    simpl. ring. }
  assert (HW : W == hi + sumWeights (eligible bd after)).
  { unfold W, hi, items. rewrite totalWeight_sum.
    replace (before ++ item :: after) with ((before ++ [item]) ++ after)
      by (rewrite <- app_assoc; reflexivity).
    rewrite eligible_app, sumWeights_app. reflexivity. }
  assert (Hlo0 : 0 <= lo).
  { apply sumWeights_nonneg, positiveWeights_eligible.
    now apply positiveWeights_app in Hpos as [Hb _]. }
  assert (Hafter : 0 <= sumWeights (eligible bd after)).
  { apply sumWeights_nonneg, positiveWeights_eligible.
    apply positiveWeights_app in Hpos as [_ Hb]. now inversion Hb. }
  split; [|split; [|split; [|split]]].
  - apply (breaksAfter_interval bd W before after item r Hpos Hs Hr0).
  - intro Hb. unfold selectionWalk. fold W. unfold items.
    now apply breaksAfter_selected.
  - assumption.
  - lra.
  - lra.
Qed.

(** *** Integer weights *)

Lemma integerWeights_app (l1 l2 : list DecisionItem) :
  integerWeights (l1 ++ l2) <-> integerWeights l1 /\ integerWeights l2.
Proof. unfold integerWeights. apply Forall_app. Qed.

Lemma integerWeights_eligible (bd : bool) (l : list DecisionItem) :
  integerWeights l -> integerWeights (eligible bd l).
Proof.
  unfold integerWeights, eligible. rewrite !Forall_forall.
  intros H item Hin. apply filter_In in Hin. apply H, Hin.
Qed.

Lemma sumWeights_integer (l : list DecisionItem) :
  integerWeights l -> exists z : Z, sumWeights l == inject_Z z.
Proof.
  induction 1 as [|item rest [z Hz] _ [zs Hzs]].
  - exists 0%Z. reflexivity.
  - exists (z + zs)%Z. rewrite sumWeights_cons, inject_Z_plus, Hz, Hzs.
    reflexivity.
Qed.

(** A midpoint draw lies in the interval of two integers exactly when
    its unit interval does. *)
Lemma midpoint_in_interval (lo hi : Q) (lz hz j : Z) :
  lo == inject_Z lz -> hi == inject_Z hz ->
  inInterval lo hi (midpoint j) <-> (lz <= j < hz)%Z.
Proof.
  intros Hlo Hhi. unfold inInterval, midpoint. split.
  - intros [Hleft Hright]. split.
    + destruct (Z_lt_le_dec j lz) as [Hlt|Hle]; [exfalso | exact Hle].
      assert (Hq : inject_Z j + 1 <= inject_Z lz).
      { change 1 with (inject_Z 1). rewrite <- inject_Z_plus, <- Zle_Qle. lia. }
      destruct Hleft as [Hl|[_ Hz]]; [lra|].
      assert (Hj : inject_Z j == - (1 # 2)) by lra.
      unfold Qeq in Hj. cbn in Hj. lia.
    + destruct (Z_lt_le_dec j hz) as [Hlt|Hle]; [exact Hlt | exfalso].
      assert (Hq : inject_Z hz <= inject_Z j) by now rewrite <- Zle_Qle.
      lra.
  - intros [Hl Hh].
    assert (Hq1 : inject_Z lz <= inject_Z j) by now rewrite <- Zle_Qle.
    assert (Hq2 : inject_Z j + 1 <= inject_Z hz).
    { change 1 with (inject_Z 1). rewrite <- inject_Z_plus, <- Zle_Qle. lia. }
    split; [left|]; lra.
Qed.

(** The integers of an interval, listed. *)
Lemma integers_from (lz wz : Z) :
  (0 <= wz)%Z ->
  exists js : list Z,
    NoDup js /\ Z.of_nat (length js) = wz
    /\ forall j, In j js <-> (lz <= j < lz + wz)%Z.
Proof.
  intro Hw.
  exists (map (fun k => (lz + Z.of_nat k)%Z) (seq 0 (Z.to_nat wz))).
  split; [|split].
  - apply Finite.Injective_map_NoDup; [|apply seq_NoDup].
    intros x y H. lia.
  - rewrite length_map, length_seq. lia.
  - intro j. rewrite in_map_iff. split.
    + intros (k & <- & Hk). apply in_seq in Hk. lia.
    + intro Hj. exists (Z.to_nat (j - lz)). split; [lia|].
      apply in_seq. lia.
Qed.

(** C1, amended.  For a registry with an item of each team whose weights
    are positive integers with a total below 2^53, the range in which
    the source's sums and comparisons are those of exact arithmetic, and
    for every draw [r] of [[0, totalWeight)]:
    - the selected item is the first item of the registry, skipped items
      left out, at which the draw minus the weights visited so far is no
      longer positive;
    - for each eligible position, the loop breaks there exactly for the
      draws between the sum [lo] of the eligible weights before it and
      [hi = lo + weight] (open at [lo], closed at [hi], the first
      interval holding [0] too), an interval of [[0, totalWeight]] of
      length the item's weight;
    - the total is an integer, and of the [totalWeight] draws
      [j + 1/2], one in the middle of each unit interval of
      [[0, totalWeight)], exactly [weight] many select the item: the
      share [weight / totalWeight] of equally spaced draws. *)
Theorem cumulative_weight_inversion_in_range
    (bd : bool) (items : list DecisionItem) (r : Q) :
  positiveWeights items ->
  integerWeights items ->
  totalWeight bd items < exactIntegerBound ->
  lacksTeam items = false ->
  0 <= r -> r < totalWeight bd items ->
  let W := totalWeight bd items in
  (exists before item after,
      items = before ++ item :: after
      /\ skipped bd item = false
      /\ selectedItem (selectionWalk bd items r) = Some item
      /\ running bd r (before ++ [item]) <= 0
      /\ forall b1 it1 a1,
           before = b1 ++ it1 :: a1 -> skipped bd it1 = false ->
           0 < running bd r (b1 ++ [it1]))
  /\ (forall before item after,
         items = before ++ item :: after ->
         skipped bd item = false ->
         let lo := sumWeights (eligible bd before) in
         let hi := sumWeights (eligible bd (before ++ [item])) in
         (breaksAfter bd W before item r <-> inInterval lo hi r)
         /\ (breaksAfter bd W before item r ->
             selectedItem (selectionWalk bd items r) = Some item)
         /\ 0 <= lo /\ hi <= W
         /\ hi - lo == DecisionItem.weight item)
  /\ (exists total : Z, W == inject_Z total)
  /\ (forall before item after,
         items = before ++ item :: after ->
         skipped bd item = false ->
         exists draws : list Z,
           NoDup draws
           /\ inject_Z (Z.of_nat (length draws)) == DecisionItem.weight item
           /\ forall j,
                In j draws
                <-> (0 <= j)%Z /\ midpoint j < W
                    /\ breaksAfter bd W before item (midpoint j)).
Proof.
  intros Hpos Hint _ Hpre Hr0 HrW W.
  split; [now apply first_nonpositive_item_wins|].
  split.
  { intros before item after Hsplit Hs. subst items.
    apply (position_is_won_on_interval bd before after item r Hpos Hs Hr0). }
  split.
  { destruct (sumWeights_integer _ (integerWeights_eligible bd _ Hint))
      as [total Htotal].
    exists total. unfold W. now rewrite totalWeight_sum. }
  intros before item after Hsplit Hs. subst items.
  assert (Hintb : integerWeights (eligible bd before)).
  { apply integerWeights_eligible.
    now apply integerWeights_app in Hint as [Hb _]. }
  destruct (sumWeights_integer _ Hintb) as [lz Hlz].
  assert (Hitem : exists wz, DecisionItem.weight item == inject_Z wz).
  { apply integerWeights_app in Hint as [_ Hi]. now inversion Hi. }
  destruct Hitem as [wz Hwz].
  assert (Hwpos : 0 < DecisionItem.weight item).
  { apply positiveWeights_app in Hpos as [_ Hi]. now inversion Hi. }
  assert (Hwz0 : (0 < wz)%Z).
  { rewrite Hwz in Hwpos. change 0 with (inject_Z 0) in Hwpos.
    now rewrite <- Zlt_Qlt in Hwpos. }
  assert (Hlz0 : (0 <= lz)%Z).
  { assert (H0 : 0 <= sumWeights (eligible bd before)).
    { apply sumWeights_nonneg, positiveWeights_eligible.
      now apply positiveWeights_app in Hpos as [Hb _]. }
    rewrite Hlz in H0. change 0 with (inject_Z 0) in H0.
    now rewrite <- Zle_Qle in H0. }
  assert (Hhz : sumWeights (eligible bd (before ++ [item]))
                == inject_Z (lz + wz)).
  { rewrite eligible_app, sumWeights_app, (eligible_cons_kept _ _ _ Hs),
      sumWeights_cons.
    change (sumWeights (eligible bd [])) with 0.
    rewrite inject_Z_plus, Hlz, Hwz. ring. }
  destruct (integers_from lz wz) as (draws & Hnd & Hlen & Hin); [lia|].
  exists draws. split; [exact Hnd|]. split; [now rewrite Hlen, Hwz|].
  intro j. rewrite Hin.
  assert (Hmid : forall k, (0 <= k)%Z -> 0 <= midpoint k).
  { intros k Hk. unfold midpoint.
    assert (0 <= inject_Z k) by (change 0 with (inject_Z 0); now rewrite <- Zle_Qle).
    lra. }
  split.
  - intro Hj. assert (Hj0 : (0 <= j)%Z) by lia.
    destruct (position_is_won_on_interval bd before after item (midpoint j)
                Hpos Hs (Hmid j Hj0)) as (Hiff & _ & _ & Hhi & _).
    assert (Hinside : inInterval (sumWeights (eligible bd before))
                        (sumWeights (eligible bd (before ++ [item])))
                        (midpoint j))
      by (apply (midpoint_in_interval _ _ lz (lz + wz) j Hlz Hhz); lia).
    split; [exact Hj0|]. split.
    + destruct Hinside as [_ Hle].
      assert (Hstrict : midpoint j < sumWeights (eligible bd (before ++ [item]))).
      { rewrite Hhz. unfold midpoint.
        assert (inject_Z j + 1 <= inject_Z (lz + wz)).
        { change 1 with (inject_Z 1). rewrite <- inject_Z_plus, <- Zle_Qle. lia. }
        lra. }
      unfold W. lra.
    + now apply Hiff.
  - intros (Hj0 & _ & Hb).
    destruct (position_is_won_on_interval bd before after item (midpoint j)
                Hpos Hs (Hmid j Hj0)) as (Hiff & _).
    apply Hiff in Hb.
    now apply (midpoint_in_interval _ _ lz (lz + wz) j Hlz Hhz) in Hb.
Qed.

Lemma cumulative_weight_inversion_in_range_witness :
  positiveWeights [tea; walk; nap]
  /\ integerWeights [tea; walk; nap]
  /\ totalWeight false [tea; walk; nap] < exactIntegerBound
  /\ lacksTeam [tea; walk; nap] = false
  /\ 0 <= 7 # 2
  /\ 7 # 2 < totalWeight false [tea; walk; nap]
  /\ selectedItem (selectionWalk false [tea; walk; nap] (7 # 2)) = Some walk.
Proof.
  assert (Hpos : positiveWeights [tea; walk; nap])
    by (repeat constructor).
  assert (Hint : integerWeights [tea; walk; nap]).
  { repeat constructor; [exists 1%Z | exists 3%Z | exists 2%Z]; reflexivity. }
  assert (Hbound : totalWeight false [tea; walk; nap] < exactIntegerBound)
    by (vm_compute; reflexivity).
  assert (H0 : 0 <= 7 # 2) by (vm_compute; discriminate).
  assert (H1 : 7 # 2 < totalWeight false [tea; walk; nap])
    by (vm_compute; reflexivity).
  repeat (split; [assumption || reflexivity|]).
  destruct (cumulative_weight_inversion_in_range false [tea; walk; nap] (7 # 2)
              Hpos Hint Hbound eq_refl H0 H1) as (_ & Hpositions & _).
  destruct (Hpositions [tea] walk [nap] eq_refl eq_refl)
    as (Hiff & Hsel & _).
  apply Hsel, Hiff. unfold inInterval. split.
  - left. vm_compute. reflexivity.
  - vm_compute. discriminate.
Defined.

Lemma walk_selects_eligible (bd : bool) (items : list DecisionItem) (r : Q) :
  lacksTeam items = false ->
  r < totalWeight bd items ->
  exists item,
    selectedItem (selectionWalk bd items r) = Some item
    /\ In item (eligible bd items).
Proof.
  intros Hpre Hr.
  destruct (walk_selects bd items r Hpre Hr) as [item Hsel].
  exists item. split; [assumption|].
  unfold selectionWalk in Hsel.
  destruct (forOf_some_split bd _ items (enterLoop r) item eq_refl Hsel)
    as (before & after & Hsplit & Hs & _).
  rewrite Hsplit. now apply kept_in_eligible.
Qed.

(** C10, amended.  For a registry with an item of each team whose
    weights are positive integers with a total below 2^53, the loop
    always yields a winner: for every draw of [[0, totalWeight)] it
    selects an eligible item, and for every value of [Math.random()] in
    [[0, 1)] [handleDecide] does not take the silent return after the
    loop: it clears the notification and schedules the announcement of
    an eligible item. *)
Theorem silent_return_unreachable_in_range (st : AppState) :
  positiveWeights (decisionItems st) ->
  integerWeights (decisionItems st) ->
  totalWeight (betterDecision st) (decisionItems st) < exactIntegerBound ->
  lacksTeam (decisionItems st) = false ->
  (forall r,
      0 <= r -> r < totalWeight (betterDecision st) (decisionItems st) ->
      exists item,
        selectedItem (selectionWalk (betterDecision st) (decisionItems st) r)
        = Some item
        /\ In item (eligible (betterDecision st) (decisionItems st)))
  /\ (forall random,
         0 <= random -> random < 1 ->
         exists item,
           In item (eligible (betterDecision st) (decisionItems st))
           /\ snd (handleDecide random st)
              = [ {| callback := spinDone item; delay := 0 |} ]
           /\ notification (fst (handleDecide random st)) = []).
Proof.
  intros Hpos _ _ Hpre. split.
  - intros r _ Hr. now apply walk_selects_eligible.
  - intros random H0 H1.
    pose proof (totalWeight_pos (betterDecision st) _ Hpos Hpre) as HW.
    destruct (walk_selects_eligible (betterDecision st) (decisionItems st)
                (random * totalWeight (betterDecision st) (decisionItems st))
                Hpre) as (item & Hsel & Hin); [nra|].
    exists item. split; [assumption|].
    unfold handleDecide. rewrite Hpre, Hsel. split; reflexivity.
Qed.

Lemma silent_return_unreachable_in_range_witness :
  positiveWeights (decisionItems sampleState)
  /\ integerWeights (decisionItems sampleState)
  /\ totalWeight (betterDecision sampleState) (decisionItems sampleState)
     < exactIntegerBound
  /\ lacksTeam (decisionItems sampleState) = false
  /\ exists item,
       selectedItem (selectionWalk false [tea; walk; nap] (7 # 2)) = Some item
       /\ In item (eligible false [tea; walk; nap]).
Proof.
  assert (Hpos : positiveWeights (decisionItems sampleState))
    by (repeat constructor).
  assert (Hint : integerWeights (decisionItems sampleState)).
  { repeat constructor; [exists 1%Z | exists 3%Z | exists 2%Z]; reflexivity. }
  assert (Hbound : totalWeight (betterDecision sampleState)
                     (decisionItems sampleState) < exactIntegerBound)
    by (vm_compute; reflexivity).
  split; [exact Hpos|]. split; [exact Hint|]. split; [exact Hbound|].
  split; [reflexivity|].
  apply (proj1 (silent_return_unreachable_in_range sampleState
                  Hpos Hint Hbound eq_refl) (7 # 2)).
  - vm_compute. discriminate.
  - vm_compute. reflexivity.
Defined.

(** In exact arithmetic the segments of the eligible items tile the
    circle: one segment per eligible item, each a proper arc inside
    [[0, 360]] of width [weight / totalWeight * 360], the first starting
    at [0], each ending where the next one starts, the last ending at
    [360].  (On binary64 the widths and the last end are rounded: see
    [Wheel64Facts].) *)
Lemma exact_segments_tile_circle (bd : bool) (items : list DecisionItem) :
  positiveWeights items ->
  lacksTeam items = false ->
  let W := totalWeight bd items in
  let segs := segments bd items in
  map fst segs = eligible bd items
  /\ (forall item s e,
         In (item, (s, e)) segs ->
         e - s == DecisionItem.weight item / W * 360)
  /\ (forall item s e,
         In (item, (s, e)) segs -> 0 <= s /\ s < e /\ e <= 360)
  /\ (exists item e rest, segs = (item, (0, e)) :: rest)
  /\ (forall k i1 s1 e1 i2 s2 e2,
         nth_error segs k = Some (i1, (s1, e1)) ->
         nth_error segs (S k) = Some (i2, (s2, e2)) ->
         e1 == s2)
  /\ (forall d, snd (snd (last segs d)) == 360).
Proof.
  intros Hpos Hpre W segs.
  pose proof (totalWeight_pos bd items Hpos Hpre) as HW. fold W in HW.
  pose proof (eligible_nonempty bd items Hpre) as Hne.
  pose proof (segmentsFrom_items bd W items 0) as Hmap. fold segs in Hmap.
  split; [|split; [|split; [|split; [|split]]]].
  - assumption.
  - intros item s e Hin. eapply segmentsFrom_width, Hin.
  - intros item s e Hin.
    apply (segmentsFrom_bounds bd W items 0 item s e HW Hpos) in Hin
      as (H1 & H2 & H3).
    pose proof (totalWeight_sum bd items) as Hsum. fold W in Hsum.
    assert (Hfull : sumWeights (eligible bd items) / W * 360 == 360)
      by (rewrite <- Hsum; field; lra).
    repeat split; lra.
  - subst segs. unfold segments in *. fold W in Hmap |- *.
    destruct (segmentsFrom bd W items 0) as [|[item [s e]] rest] eqn:E.
    + cbn [map] in Hmap. congruence.
    + apply segmentsFrom_head in E as ->. now exists item, e, rest.
  - intros k i1 s1 e1 i2 s2 e2 H1 H2.
    rewrite (segmentsFrom_adjacent bd W items 0 k i1 i2 s1 e1 s2 e2 H1 H2).
    reflexivity.
  - intro d. unfold segs, segments. fold W.
    rewrite (segmentsFrom_last bd W items 0 d Hne).
    pose proof (totalWeight_sum bd items) as Hsum. fold W in Hsum.
    rewrite <- Hsum. field. lra.
Qed.

End Selection.

(** ** The handlers *)

Section Handlers.

(** C3 as stated fails on its example: for the bounds 90 and 180 the
    rotation is not 1845. *)
Lemma rotation_90_180_is_not_1845 : ~ finalRotation 90 180 == 1845.
Proof. vm_compute. discriminate. Qed.

(** C3, amended.  The rotation is a function of the winning bounds
    alone: [(360 - (start + end) / 2) + fullSpins * 360] with
    [fullSpins = 5]; equal bounds give equal rotations; the bounds 90
    and 180 give [(360 - 135) + 1800 = 2025]; and it is the rotation
    [handleDecide] stores whenever it selects an item. *)
Theorem rotation_from_bounds :
  fullSpins = 5
  /\ (forall s e, finalRotation s e == (360 - (s + e) / 2) + fullSpins * 360)
  /\ (forall s e s' e',
         s == s' -> e == e' -> finalRotation s e == finalRotation s' e')
  /\ finalRotation 90 180 == 2025
  /\ (forall random st item,
         lacksTeam (decisionItems st) = false ->
         let w := selectionWalk (betterDecision st) (decisionItems st)
                    (random * totalWeight (betterDecision st) (decisionItems st)) in
         selectedItem w = Some item ->
         rotation (fst (handleDecide random st))
         = finalRotation (winningStartDegree w) (winningEndDegree w)).
Proof.
  split; [reflexivity|].
  split; [intros s e; unfold finalRotation; reflexivity|].
  split; [intros s e s' e' Hs He; unfold finalRotation; rewrite Hs, He;
          reflexivity|].
  split; [vm_compute; reflexivity|].
  intros random st item Hpre w Hsel.
  unfold handleDecide. rewrite Hpre. fold w. rewrite Hsel. reflexivity.
Qed.

Lemma rotation_from_bounds_witness :
  lacksTeam (decisionItems sampleState) = false
  /\ rotation (fst (handleDecide (1 # 2) sampleState))
     = finalRotation
         (winningStartDegree (selectionWalk false [tea; walk; nap]
                                ((1 # 2) * totalWeight false [tea; walk; nap])))
         (winningEndDegree (selectionWalk false [tea; walk; nap]
                              ((1 # 2) * totalWeight false [tea; walk; nap]))).
Proof.
  split; [reflexivity|].
  exact (proj2 (proj2 (proj2 (proj2 rotation_from_bounds)))
           (1 # 2) sampleState walk eq_refl eq_refl).
Defined.

(** C5.  A registry without a product item or without an engineering
    item is refused: the error message is shown, nothing is scheduled,
    and registry, rotation and spinning flag stay as they were,
    whatever the better-decision box says. *)
Theorem decide_refused_without_both_teams (random : Q) (st : AppState) :
  countTeam product (decisionItems st) = 0%nat
  \/ countTeam engineering (decisionItems st) = 0%nat ->
  handleDecide random st = (setNotification decideErrorMessage st, [])
  /\ notification (fst (handleDecide random st)) = decideErrorMessage
  /\ snd (handleDecide random st) = []
  /\ decisionItems (fst (handleDecide random st)) = decisionItems st
  /\ rotation (fst (handleDecide random st)) = rotation st
  /\ isSpinning (fst (handleDecide random st)) = isSpinning st
  /\ (forall flag,
         handleDecide random (setBetterDecision flag st)
         = (setNotification decideErrorMessage (setBetterDecision flag st), [])).
Proof.
  intro Hlack. apply lacksTeam_true in Hlack.
  assert (H : handleDecide random st
              = (setNotification decideErrorMessage st, []))
    by (unfold handleDecide; now rewrite Hlack).
  rewrite H. repeat split.
  intro flag. unfold handleDecide. cbn [decisionItems setBetterDecision].
  now rewrite Hlack.
Qed.

Lemma decide_refused_without_both_teams_witness :
  countTeam engineering (decisionItems productOnly) = 0%nat
  /\ handleDecide (1 # 2) productOnly
     = (setNotification decideErrorMessage productOnly, []).
Proof.
  split; [reflexivity|].
  exact (proj1 (decide_refused_without_both_teams (1 # 2) productOnly
                  (or_intror eq_refl))).
Defined.

Lemma handleDecide_delays (random : Q) (st : AppState) :
  Forall (fun t => delay t = 0%Z) (snd (handleDecide random st)).
Proof.
  unfold handleDecide.
  destruct (lacksTeam (decisionItems st)); [constructor|].
  destruct (selectedItem _); repeat constructor.
Qed.

(** C8 (what the code does).  Every timeout [handleDecide] schedules
    has a delay of 0 milliseconds, while the transition of the wheel
    lasts 5 seconds: in the sample session the announcement is due at
    once. *)
Theorem announcement_scheduled_without_delay :
  (forall random st,
      Forall (fun t => delay t = 0%Z) (snd (handleDecide random st)))
  /\ map delay (pending (run sampleSession mounted)) = [0%Z]
  /\ option_map transition
       (generateWheelStyle (setIsSpinning true sampleState))
     = Some (Some 5).
Proof.
  split; [exact handleDecide_delays|]. split; reflexivity.
Qed.

Lemma handleDecide_isSpinning (random : Q) (st : AppState) :
  isSpinning (fst (handleDecide random st)) = isSpinning st.
Proof.
  unfold handleDecide.
  destruct (lacksTeam (decisionItems st)); [reflexivity|].
  destruct (selectedItem _); reflexivity.
Qed.

Lemma handleDecide_callbacks (random : Q) (st : AppState) :
  Forall (fun t => forall st', isSpinning (callback t st') = false)
         (snd (handleDecide random st)).
Proof.
  unfold handleDecide.
  destruct (lacksTeam (decisionItems st)); [constructor|].
  destruct (selectedItem _); repeat constructor.
Qed.

Lemma removeNth_Forall {A : Type} (P : A -> Prop) (n : nat) (l : list A) :
  Forall P l -> Forall P (removeNth n l).
Proof.
  intro H. revert n. induction H as [|x l Hx Hl IH]; intro n.
  - destruct n; constructor.
  - destruct n; simpl; [assumption | constructor; auto].
Qed.

(** No event raises the spinning flag. *)
Lemma dispatch_not_spinning (w : World) (e : Event) :
  isSpinning (state w) = false ->
  Forall (fun t => forall st', isSpinning (callback t st') = false)
         (pending w) ->
  isSpinning (state (dispatch w e)) = false
  /\ Forall (fun t => forall st', isSpinning (callback t st') = false)
            (pending (dispatch w e)).
Proof.
  intros Hs Hp. destruct e; cbn [dispatch state pending];
    try (split; [exact Hs | exact Hp]).
  - (* SubmitAdd *)
    split; [|exact Hp]. unfold handleAddDecision.
    destruct (_ || _); exact Hs.
  - (* ClickDecide *)
    destruct (decideDisabled (state w)); [now split|].
    pose proof (handleDecide_isSpinning random (state w)) as Hd.
    pose proof (handleDecide_callbacks random (state w)) as Hc.
    destruct (handleDecide random (state w)) as [st' scheduled].
    cbn [state pending fst snd] in *. split; [congruence|].
    apply Forall_app. now split.
  - (* ClickBackdrop *)
    split; [|exact Hp]. unfold clickBackdrop.
    destruct (_ && _); exact Hs.
  - (* TimeoutFires *)
    destruct (nth_error (pending w) n) as [t|] eqn:E; [|now split].
    cbn [state pending]. split.
    + apply nth_error_In in E.
      rewrite Forall_forall in Hp. now apply Hp.
    + now apply removeNth_Forall.
  - (* NotificationExpires *)
    unfold notificationEffect.
    destruct (_ && _); cbn [state pending callback]; now split.
Qed.

Lemma run_not_spinning (events : list Event) (w : World) :
  isSpinning (state w) = false ->
  Forall (fun t => forall st', isSpinning (callback t st') = false)
         (pending w) ->
  isSpinning (state (run events w)) = false.
Proof.
  unfold run. revert w.
  induction events as [|e rest IH]; intros w Hs Hp; cbn [fold_left].
  - exact Hs.
  - destruct (dispatch_not_spinning w e Hs Hp) as [Hs' Hp'].
    now apply IH.
Qed.

(** C9 (what the code does).  [handleDecide] leaves the spinning flag
    as it found it, and no sequence of events ever raises it; after
    the click of the sample session an announcement is pending, the
    flag is down, the button is enabled, and a second click is
    accepted while the first announcement is still pending. *)
Theorem spinning_flag_never_raised :
  (forall random st,
      isSpinning (fst (handleDecide random st)) = isSpinning st)
  /\ (forall events, isSpinning (state (run events mounted)) = false)
  /\ (let w := run sampleSession mounted in
      length (pending w) = 1%nat
      /\ isSpinning (state w) = false
      /\ decideDisabled (state w) = false
      /\ length (pending (dispatch w (ClickDecide (1 # 2)))) = 2%nat).
Proof.
  split; [exact handleDecide_isSpinning|]. split.
  - intro events. apply run_not_spinning; [reflexivity | constructor].
  - cbn zeta. repeat split; reflexivity.
Qed.

End Handlers.

(** ** The registry *)

Section Registry.

Lemma orElse_zero (x d : Q) : x == 0 -> JS.orElse x d = d.
Proof.
  intro H. unfold JS.orElse.
  apply Qeq_bool_iff in H. now rewrite H.
Qed.

Lemma orElse_nonzero (x d : Q) : ~ x == 0 -> JS.orElse x d = x.
Proof.
  intro H. unfold JS.orElse.
  destruct (Qeq_bool x 0) eqn:E; [|reflexivity].
  apply Qeq_bool_iff in E. contradiction.
Qed.

(** The weight check of [handleAddDecision] only catches the negative
    weights: a zero weight has been replaced by 1 before it. *)
Lemma weight_rejected (x : Q) :
  Qle_bool (JS.orElse x 1) 0 = true <-> x < 0.
Proof.
  rewrite Qle_bool_iff.
  destruct (Qeq_dec x 0) as [Hz|Hnz].
  - rewrite (orElse_zero x 1 Hz). split; intro H; lra.
  - rewrite (orElse_nonzero x 1 Hnz). split; intro H; lra.
Qed.

Lemma isEmpty_true (s : JS.str) : JS.isEmpty s = true <-> s = [].
Proof. destruct s; simpl; split; intro H; congruence. Qed.

Lemma handleAddDecision_cases (now : Z) (st : AppState) :
  (JS.trim (decisionText st) = [] \/ weight st < 0
   -> handleAddDecision now st = setNotification addErrorMessage st)
  /\ (JS.trim (decisionText st) <> [] -> 0 <= weight st
      -> decisionItems (handleAddDecision now st)
         = decisionItems st
           ++ [ {| DecisionItem.id := now;
                   DecisionItem.decision := JS.trim (decisionText st);
                   DecisionItem.weight := JS.orElse (weight st) 1;
                   DecisionItem.team := team st |} ]).
Proof.
  unfold handleAddDecision. split.
  - intros [He|Hw].
    + rewrite He. reflexivity.
    + apply weight_rejected in Hw. rewrite Hw, orb_true_r. reflexivity.
  - intros He Hw.
    destruct (JS.isEmpty (JS.trim (decisionText st))) eqn:E1;
      [apply isEmpty_true in E1; contradiction|].
    destruct (Qle_bool (JS.orElse (weight st) 1) 0) eqn:E2;
      [apply weight_rejected in E2; lra|].
    reflexivity.
Qed.

(** C4 as stated fails on its own example: with the weight 0 the item
    is appended, no validation error is raised. *)
Lemma add_zero_weight_is_accepted :
  ~ failsValidation initialState
      (add (JS.lit "go out") 0 product 0 initialState).
Proof. intros [H _]. vm_compute in H. discriminate. Qed.

(** C4, amended.  [add] fails with the validation message, and leaves
    the registry alone, if the label is blank after trimming or the
    weight is negative.  Otherwise it appends exactly one item, with
    the trimmed label, the given team and the given weight, a weight
    of 0 being replaced by 1.  So on the empty registry
    [add("go out", 0, product)] and [add("go out", 5, product)] both
    leave one item, of weight 1 and 5, and [add("", 5, product)]
    fails. *)
Theorem add_validates_then_appends
    (label : JS.str) (w : Q) (category : Team) (now : Z) (st : AppState) :
  let st' := add label w category now st in
  (JS.trim label = [] \/ w < 0 -> failsValidation st st')
  /\ (JS.trim label <> [] -> 0 <= w ->
      decisionItems st'
      = decisionItems st
        ++ [ {| DecisionItem.id := now;
                DecisionItem.decision := JS.trim label;
                DecisionItem.weight := JS.orElse w 1;
                DecisionItem.team := category |} ]
      /\ count st' = S (count st)
      /\ (w == 0 -> JS.orElse w 1 = 1)
      /\ (~ w == 0 -> JS.orElse w 1 = w))
  /\ failsValidation initialState (add [] 5 product now initialState)
  /\ decisionItems (add (JS.lit "go out") 0 product now initialState)
     = [ {| DecisionItem.id := now;
            DecisionItem.decision := JS.lit "go out";
            DecisionItem.weight := 1;
            DecisionItem.team := product |} ]
  /\ count (add (JS.lit "go out") 5 product now initialState) = 1%nat.
Proof.
  intro st'. unfold st', add.
  destruct (handleAddDecision_cases now
              (setTeam category (setWeight w (setDecisionText label st))))
    as [Hfail Hok].
  cbn [decisionText weight team decisionItems setTeam setWeight
       setDecisionText] in Hfail, Hok.
  split; [|split; [|split; [|split]]].
  - intro H. rewrite (Hfail H). split; reflexivity.
  - intros He Hw. split; [exact (Hok He Hw)|]. split.
    + unfold count. rewrite (Hok He Hw), length_app. simpl. lia.
    + split; [apply orElse_zero | apply orElse_nonzero].
  - split; reflexivity.
  - reflexivity.
  - reflexivity.
Qed.

Lemma add_validates_then_appends_witness :
  JS.trim (JS.lit "  ") = []
  /\ failsValidation initialState (add (JS.lit "  ") 5 product 7 initialState).
Proof.
  split; [reflexivity|].
  exact (proj1 (add_validates_then_appends (JS.lit "  ") 5 product 7
                  initialState) (or_introl eq_refl)).
Defined.

(** Every item of a registry built by [add] and [remove] has a
    positive weight. *)
Lemma perform_positiveWeights (st : AppState) (op : Op) :
  positiveWeights (decisionItems st) ->
  positiveWeights (decisionItems (perform st op)).
Proof.
  intro H. destruct op as [label w category now|id]; cbn [perform].
  - unfold add, handleAddDecision.
    cbn [decisionText weight team setTeam setWeight setDecisionText].
    destruct (JS.isEmpty (JS.trim label)); [exact H|]. cbn [orb].
    destruct (Qle_bool (JS.orElse w 1) 0) eqn:E; [exact H|].
    cbn [decisionItems setTeam setWeight setDecisionText setDecisionItems].
    apply positiveWeights_app. split; [exact H|].
    constructor; [|constructor]. cbn [DecisionItem.weight].
    now apply Qle_bool_false in E.
  - unfold remove, handleRemoveDecision. cbn [decisionItems setDecisionItems].
    unfold positiveWeights in *. rewrite Forall_forall in *.
    intros item Hin. apply filter_In in Hin. now apply H.
Qed.

Lemma performAll_positiveWeights (ops : list Op) :
  positiveWeights (decisionItems (performAll ops initialState)).
Proof.
  unfold performAll.
  assert (H : positiveWeights (decisionItems initialState)) by constructor.
  revert H. generalize initialState.
  induction ops as [|op rest IH]; intros st H; cbn [fold_left].
  - exact H.
  - apply IH. now apply perform_positiveWeights.
Qed.

(** *** Identifiers *)

Lemma ids_add (label : JS.str) (w : Q) (category : Team) (now : Z)
    (st : AppState) :
  ids (add label w category now st) = ids st
  \/ ids (add label w category now st) = ids st ++ [now].
Proof.
  unfold add, handleAddDecision, ids.
  destruct (_ || _); [now left|]. right.
  cbn [decisionItems setTeam setWeight setDecisionText setDecisionItems].
  now rewrite map_app.
Qed.

Lemma ids_remove (id : Z) (st : AppState) :
  ids (remove id st) = filter (fun i => negb (i =? id)%Z) (ids st).
Proof.
  unfold remove, handleRemoveDecision, ids.
  cbn [decisionItems setDecisionItems].
  induction (decisionItems st) as [|item rest IH]; simpl; [reflexivity|].
  destruct (DecisionItem.id item =? id)%Z; simpl; now rewrite IH.
Qed.

Lemma NoDup_snoc {A : Type} (l : list A) (x : A) :
  NoDup (l ++ [x]) <-> NoDup l /\ ~ In x l.
Proof.
  apply NoDup_Add. rewrite <- (app_nil_r l) at 1. apply Add_app.
Qed.

Lemma add_accepted (label : JS.str) (w : Q) (category : Team) (now : Z)
    (st : AppState) :
  passesValidation label w = true ->
  decisionItems (add label w category now st)
  = decisionItems st
    ++ [ {| DecisionItem.id := now;
            DecisionItem.decision := JS.trim label;
            DecisionItem.weight := JS.orElse w 1;
            DecisionItem.team := category |} ].
Proof.
  unfold passesValidation, add, handleAddDecision.
  cbn [decisionText weight team setTeam setWeight setDecisionText].
  intro H. apply negb_true_iff in H. rewrite H. reflexivity.
Qed.

Lemma add_refused (label : JS.str) (w : Q) (category : Team) (now : Z)
    (st : AppState) :
  passesValidation label w = false ->
  decisionItems (add label w category now st) = decisionItems st.
Proof.
  unfold passesValidation, add, handleAddDecision.
  cbn [decisionText weight team setTeam setWeight setDecisionText].
  intro H. apply negb_false_iff in H. rewrite H. reflexivity.
Qed.

Lemma performAll_NoDup (ops : list Op) (st : AppState) :
  NoDup (ids st) ->
  NoDup (acceptedReadings ops) ->
  (forall i, In i (ids st) -> ~ In i (acceptedReadings ops)) ->
  NoDup (ids (performAll ops st)).
Proof.
  unfold performAll. revert st.
  induction ops as [|op rest IH]; intros st Hnd Hreadings Hfresh;
    cbn [fold_left].
  - exact Hnd.
  - destruct op as [label w category now|id];
      cbn [perform acceptedReadings] in *.
    + destruct (passesValidation label w) eqn:E.
      * apply NoDup_cons_iff in Hreadings as [Hnow Hrest].
        assert (Hids : ids (add label w category now st) = ids st ++ [now]).
        { unfold ids. rewrite (add_accepted _ _ _ _ _ E), map_app. reflexivity. }
        apply IH; rewrite ?Hids; try assumption.
        -- apply NoDup_snoc. split; [assumption|].
           intro Hin. apply (Hfresh now Hin). now left.
        -- intros i Hi Hrd. apply in_app_or in Hi as [Hi|[<-|[]]].
           ++ apply (Hfresh i Hi). now right.
           ++ contradiction.
      * assert (Hids : ids (add label w category now st) = ids st).
        { unfold ids. now rewrite (add_refused _ _ _ _ _ E). }
        apply IH; rewrite ?Hids; assumption.
    + apply IH; rewrite ?ids_remove; try assumption.
      * now apply NoDup_filter.
      * intros i Hi. apply filter_In in Hi as [Hi _]. now apply Hfresh.
Qed.

(** C7 as stated fails: two submissions that read the same clock value
    leave two items with the same id. *)
Lemma same_millisecond_duplicates_id :
  ~ NoDup (ids (performAll sameMillisecond initialState)).
Proof.
  vm_compute. intro H. inversion H as [|x l Hnotin _]; subst.
  apply Hnotin. now left.
Qed.

(** C7, amended.  An accepted [add] appends one item whose id is the
    clock reading of its submission, and a refused [add] appends nothing.
    On a registry without duplicate ids, an accepted [add] leaves the
    registry without duplicates exactly when its clock reading is not
    yet the id of an item.  So the registry never holds two items with
    the same id after a sequence of adds and removes in which the
    accepted adds read pairwise distinct clock values. *)
Theorem ids_unique_iff_readings_fresh :
  (forall label w category now st,
      passesValidation label w = true ->
      exists item,
        decisionItems (add label w category now st) = decisionItems st ++ [item]
        /\ DecisionItem.id item = now)
  /\ (forall label w category now st,
         passesValidation label w = false ->
         decisionItems (add label w category now st) = decisionItems st)
  /\ (forall label w category now st,
         passesValidation label w = true ->
         NoDup (ids st) ->
         NoDup (ids (add label w category now st)) <-> ~ In now (ids st))
  /\ (forall ops,
         NoDup (acceptedReadings ops) ->
         NoDup (ids (performAll ops initialState))).
Proof.
  split; [|split; [|split]].
  - intros label w category now st H. eexists. split.
    + apply (add_accepted _ _ _ _ _ H).
    + reflexivity.
  - intros label w category now st H. apply (add_refused _ _ _ _ _ H).
  - intros label w category now st H Hnd. unfold ids.
    rewrite (add_accepted _ _ _ _ _ H), map_app. cbn [map DecisionItem.id].
    rewrite NoDup_snoc. tauto.
  - intros ops Hreadings. apply performAll_NoDup.
    + constructor.
    + assumption.
    + intros i [].
Qed.

Lemma ids_unique_iff_readings_fresh_witness :
  NoDup (acceptedReadings clockStepsBack)
  /\ NoDup (ids (performAll clockStepsBack initialState)).
Proof.
  assert (Hreadings : NoDup (acceptedReadings clockStepsBack)).
  { cbn. repeat constructor; cbn; intuition discriminate. }
  split; [exact Hreadings|].
  exact (proj2 (proj2 (proj2 ids_unique_iff_readings_fresh))
           clockStepsBack Hreadings).
Defined.

End Registry.

End WheelFacts.

(** * The selection on binary64 *)

Module Wheel64Facts.

Import Wheel64.
Local Open Scope float_scope.
Unset Implicit Arguments.

Section Guard.



End Guard.

Section Segments.

Variable bd : bool.
Variable W : float.






End Segments.

Section Claims.




(** C1 as stated fails: eight items of weight 1 followed by one of
    weight 2^54 pass the guard, the draw 2^54 + 4 lies in
    [[0, totalWeight)], and the loop selects nothing: each subtraction
    of 1 rounds back to the draw.  [Math.random() = 1 - 2^-52] produces
    this draw. *)
Lemma heavy_tail_has_no_winner :
  lacksTeam heavyTail = false
  /\ (0 <=? 18014398509481988) = true
  /\ (18014398509481988 <? totalWeight false heavyTail) = true
  /\ selectedItem (selectionWalk false heavyTail 18014398509481988) = None
  /\ 0x1.ffffffffffffep-1 * totalWeight false heavyTail = 18014398509481988
  /\ handleDecide 0x1.ffffffffffffep-1 false heavyTail = NothingSelected.
Proof. repeat split; vm_compute; reflexivity. Qed.

(** C10 as stated fails: an item of weight 2^53 followed by three of
    weight 3 pass the guard, [Math.random() = 1 - 2^-53] lies in
    [[0, 1)], and [handleDecide] takes the silent return after the
    loop. *)
Lemma heavy_head_takes_silent_return :
  lacksTeam heavyHead = false
  /\ (0 <=? 0x1.fffffffffffffp-1) = true
  /\ (0x1.fffffffffffffp-1 <? 1) = true
  /\ (0x1.fffffffffffffp-1 * totalWeight false heavyHead
      <? totalWeight false heavyHead) = true
  /\ handleDecide 0x1.fffffffffffffp-1 false heavyHead = NothingSelected.
Proof. repeat split; vm_compute; reflexivity. Qed.

End Claims.

End Wheel64Facts.

(** * Properties of the binary oracle *)

Module BinaryFacts.

Import Binary.
Local Open Scope Q_scope.
Unset Implicit Arguments.

Section Containment.

Lemma startsWith_app (p b : JS.str) : JS.startsWith (p ++ b) p = true.
Proof.
  induction p as [|a p IH]; simpl; [reflexivity|].
  now rewrite N.eqb_refl, IH.
Qed.

Lemma includes_skip (a s p : JS.str) :
  JS.includes s p = true -> JS.includes (a ++ s) p = true.
Proof.
  intro H. induction a as [|x a IH]; [exact H|].
  cbn [app JS.includes]. rewrite IH. apply orb_true_r.
Qed.

Lemma includes_middle (a p b : JS.str) :
  JS.includes (a ++ p ++ b) p = true.
Proof.
  apply includes_skip. destruct (p ++ b) eqn:E; cbn [JS.includes];
    rewrite <- E, startsWith_app; reflexivity.
Qed.

Lemma startsWith_length (s p : JS.str) :
  JS.startsWith s p = true -> (length p <= length s)%nat.
Proof.
  revert s; induction p as [|a p IH]; intros s H; simpl in *; [lia|].
  destruct s as [|b s]; [discriminate|].
  apply andb_true_iff in H as [_ H]. apply IH in H. simpl. lia.
Qed.

Lemma includes_too_long (s p : JS.str) :
  (length s < length p)%nat -> JS.includes s p = false.
Proof.
  revert p; induction s as [|b s IH]; intros p Hlen.
  - destruct p; [simpl in Hlen; lia | reflexivity].
  - cbn [JS.includes]. rewrite IH by (simpl in Hlen; lia).
    destruct (JS.startsWith (b :: s) p) eqn:E; [|reflexivity].
    apply startsWith_length in E. lia.
Qed.

Lemma clash_startsWith (s q X Y : JS.str) :
  JS.clash s q = true -> JS.startsWith (s ++ X) (q ++ Y) = false.
Proof.
  revert s; induction q as [|a q IH]; intros s H.
  - destruct s; discriminate.
  - destruct s as [|b s]; [discriminate|].
    cbn [JS.clash] in H. cbn [app JS.startsWith].
    destruct (a =? b)%N; [|reflexivity].
    cbn [negb orb] in H. now rewrite IH.
Qed.

Lemma clashAll_includes (P q X Y : JS.str) :
  JS.clashAll P q = true ->
  JS.includes (P ++ X) (q ++ Y) = JS.includes X (q ++ Y).
Proof.
  induction P as [|c P IH]; intro H; [reflexivity|].
  cbn [JS.clashAll] in H. apply andb_true_iff in H as [Hc Hall].
  change ((c :: P) ++ X) with (c :: (P ++ X)). cbn [JS.includes].
  change (c :: (P ++ X)) with ((c :: P) ++ X).
  now rewrite (clash_startsWith _ _ X Y Hc), IH.
Qed.

(** A phrase longer than the topic and the closing mark is not found
    once the fixed head of the message has been ruled out. *)
Lemma phrase_not_in_tail (q T : JS.str) :
  (2 <= length q)%nat ->
  JS.includes (T ++ JS.lit "!") (q ++ T) = false.
Proof.
  intro H. apply includes_too_long.
  rewrite !length_app. simpl. lia.
Qed.

End Containment.

Section Verdict.

Variable T : JS.str.

Lemma lower_should_verdict :
  JS.toLowerCase (verdict (JS.lit "SHOULD") T)
  = JS.lit "the universe has decided: you "
    ++ (JS.lit "should " ++ JS.toLowerCase T) ++ JS.lit "!".
Proof.
  unfold verdict, JS.toLowerCase. rewrite !map_app. reflexivity.
Qed.

Lemma lower_shouldnt_verdict :
  JS.toLowerCase (verdict (JS.lit "SHOULDNT") T)
  = JS.lit "the universe has decided: you "
    ++ (JS.lit "shouldnt " ++ JS.toLowerCase T) ++ JS.lit "!".
Proof.
  unfold verdict, JS.toLowerCase. rewrite !map_app. reflexivity.
Qed.

Lemma lower_should_verdict_head :
  JS.toLowerCase (verdict (JS.lit "SHOULD") T)
  = JS.lit "the universe has decided: you should "
    ++ (JS.toLowerCase T ++ JS.lit "!").
Proof.
  unfold verdict, JS.toLowerCase. rewrite !map_app. reflexivity.
Qed.

Lemma lower_shouldnt_verdict_head :
  JS.toLowerCase (verdict (JS.lit "SHOULDNT") T)
  = JS.lit "the universe has decided: you shouldnt "
    ++ (JS.toLowerCase T ++ JS.lit "!").
Proof.
  unfold verdict, JS.toLowerCase. rewrite !map_app. reflexivity.
Qed.

Lemma lower_shouldPhrase :
  JS.toLowerCase (shouldPhrase T) = JS.lit "should " ++ JS.toLowerCase T.
Proof. unfold shouldPhrase, JS.toLowerCase. now rewrite map_app. Qed.

Lemma lower_shouldntPhrase :
  JS.toLowerCase (shouldntPhrase T) = JS.lit "shouldnt " ++ JS.toLowerCase T.
Proof. unfold shouldntPhrase, JS.toLowerCase. now rewrite map_app. Qed.

Lemma should_verdict_phrases :
  JS.includesIgnoreCase (verdict (JS.lit "SHOULD") T) (shouldPhrase T) = true
  /\ JS.includesIgnoreCase (verdict (JS.lit "SHOULD") T) (shouldntPhrase T)
     = false.
Proof.
  unfold JS.includesIgnoreCase.
  rewrite lower_shouldPhrase, lower_shouldntPhrase. split.
  - rewrite lower_should_verdict. apply includes_middle.
  - rewrite lower_should_verdict_head.
    rewrite clashAll_includes by (vm_compute; reflexivity).
    apply phrase_not_in_tail. vm_compute. lia.
Qed.

Lemma shouldnt_verdict_phrases :
  JS.includesIgnoreCase (verdict (JS.lit "SHOULDNT") T) (shouldPhrase T)
  = false
  /\ JS.includesIgnoreCase (verdict (JS.lit "SHOULDNT") T) (shouldntPhrase T)
     = true.
Proof.
  unfold JS.includesIgnoreCase.
  rewrite lower_shouldPhrase, lower_shouldntPhrase. split.
  - rewrite lower_shouldnt_verdict_head.
    rewrite clashAll_includes by (vm_compute; reflexivity).
    apply phrase_not_in_tail. vm_compute. lia.
  - rewrite lower_shouldnt_verdict. apply includes_middle.
Qed.

End Verdict.

Section Submit.

(** C6.  A topic that is blank after trimming is refused with the
    error message, the input left as typed.  Otherwise the message is
    the verdict on the trimmed topic, and, letter case ignored, it
    contains exactly one of "should <topic>" and "shouldnt <topic>":
    the first when the draw is below one half, the second otherwise.
    For "eat pizza" the message is one of the two expected
    sentences. *)
Theorem oracle_says_exactly_one
    (topic : JS.str) (random : Q) (st : AppState) :
  let st' := decide topic random st in
  (JS.trim topic = [] ->
   notification st' = submitErrorMessage /\ inputValue st' = topic)
  /\ (JS.trim topic <> [] ->
      notification st'
      = verdict (if JS.ltb random (1 # 2)
                 then JS.lit "SHOULD" else JS.lit "SHOULDNT")
                (JS.trim topic)
      /\ xorb (JS.includesIgnoreCase (notification st')
                 (shouldPhrase (JS.trim topic)))
              (JS.includesIgnoreCase (notification st')
                 (shouldntPhrase (JS.trim topic)))
         = true
      /\ JS.includesIgnoreCase (notification st')
           (shouldPhrase (JS.trim topic))
         = JS.ltb random (1 # 2)
      /\ JS.includesIgnoreCase (notification st')
           (shouldntPhrase (JS.trim topic))
         = negb (JS.ltb random (1 # 2)))
  /\ (notification (decide (JS.lit "eat pizza") random st)
      = JS.lit "The universe has decided: You should eat pizza!"
      \/ notification (decide (JS.lit "eat pizza") random st)
         = JS.lit "The universe has decided: You shouldnt eat pizza!").
Proof.
  intro st'. unfold st', decide, handleSubmit.
  cbn [inputValue setInputValue].
  split; [|split].
  - intro He. rewrite He. split; reflexivity.
  - intro Hne.
    destruct (JS.trim topic) as [|c T] eqn:E; [congruence|].
    cbn [JS.isEmpty notification setInputValue setNotification].
    split; [reflexivity|].
    destruct (JS.ltb random (1 # 2)).
    + destruct (should_verdict_phrases (c :: T)) as [H1 H2].
      rewrite H1, H2. repeat split.
    + destruct (shouldnt_verdict_phrases (c :: T)) as [H1 H2].
      rewrite H1, H2. repeat split.
  - destruct (JS.ltb random (1 # 2)); [left | right]; reflexivity.
Qed.

Lemma oracle_says_exactly_one_witness :
  JS.trim (JS.lit " eat pizza ") <> []
  /\ xorb (JS.includesIgnoreCase
             (notification (decide (JS.lit " eat pizza ") (1 # 3) initialState))
             (shouldPhrase (JS.trim (JS.lit " eat pizza "))))
          (JS.includesIgnoreCase
             (notification (decide (JS.lit " eat pizza ") (1 # 3) initialState))
             (shouldntPhrase (JS.trim (JS.lit " eat pizza "))))
     = true.
Proof.
  assert (Hne : JS.trim (JS.lit " eat pizza ") <> [])
    by (vm_compute; discriminate).
  split; [exact Hne|].
  exact (proj1 (proj2 (proj1 (proj2
           (oracle_says_exactly_one (JS.lit " eat pizza ") (1 # 3)
              initialState)) Hne))).
Defined.

End Submit.

End BinaryFacts.

(** * Trimming *)

Module TrimFacts.

Unset Implicit Arguments.

Lemma trimStart_head (s : JS.str) (c : N) (t : JS.str) :
  JS.trimStart s = c :: t -> JS.isWhiteSpace c = false.
Proof.
  induction s as [|x s IH]; cbn [JS.trimStart]; [discriminate|].
  destruct (JS.isWhiteSpace x) eqn:E; [exact IH|].
  intro H. injection H as <- _. exact E.
Qed.

Lemma trimStart_fixed (c : N) (t : JS.str) :
  JS.isWhiteSpace c = false -> JS.trimStart (c :: t) = c :: t.
Proof. intro H. cbn [JS.trimStart]. now rewrite H. Qed.

Lemma trimStart_idem (s : JS.str) :
  JS.trimStart (JS.trimStart s) = JS.trimStart s.
Proof.
  destruct (JS.trimStart s) as [|c t] eqn:E; [reflexivity|].
  apply trimStart_fixed. eapply trimStart_head, E.
Qed.

(** What [trimStart] drops is whitespace. *)
Lemma trimStart_split (s : JS.str) :
  exists a, s = a ++ JS.trimStart s /\ forallb JS.isWhiteSpace a = true.
Proof.
  induction s as [|x s (a & Hs & Ha)]; cbn [JS.trimStart].
  - now exists [].
  - destruct (JS.isWhiteSpace x) eqn:E.
    + exists (x :: a). cbn [app forallb]. rewrite E, Ha. split; [|reflexivity].
      now rewrite <- Hs.
    + now exists [].
Qed.

Lemma trimStart_app_last (l : JS.str) (c : N) :
  JS.isWhiteSpace c = false ->
  JS.trimStart (l ++ [c]) = JS.trimStart l ++ [c].
Proof.
  intro Hc. induction l as [|x l IH]; cbn [JS.trimStart app].
  - now rewrite Hc.
  - destruct (JS.isWhiteSpace x); [exact IH | reflexivity].
Qed.

Lemma trimEnd_cons (c : N) (t : JS.str) :
  JS.isWhiteSpace c = false -> JS.trimEnd (c :: t) = c :: JS.trimEnd t.
Proof.
  intro Hc. unfold JS.trimEnd. cbn [rev].
  rewrite (trimStart_app_last _ _ Hc), rev_app_distr. reflexivity.
Qed.

Lemma trimEnd_idem (s : JS.str) : JS.trimEnd (JS.trimEnd s) = JS.trimEnd s.
Proof.
  unfold JS.trimEnd. now rewrite rev_involutive, trimStart_idem.
Qed.

Lemma trimEnd_split (s : JS.str) :
  exists b, s = JS.trimEnd s ++ b /\ forallb JS.isWhiteSpace b = true.
Proof.
  destruct (trimStart_split (rev s)) as (a & Hs & Ha).
  exists (rev a). split.
  - unfold JS.trimEnd. rewrite <- rev_app_distr, <- Hs. now rewrite rev_involutive.
  - rewrite forallb_forall in *. intros x Hx. apply Ha. now apply in_rev.
Qed.

Lemma trimEnd_last (s t : JS.str) (c : N) :
  JS.trimEnd s = t ++ [c] -> JS.isWhiteSpace c = false.
Proof.
  unfold JS.trimEnd. intro H.
  apply (f_equal (@rev N)) in H. rewrite rev_involutive, rev_app_distr in H.
  cbn [rev app] in H. eapply trimStart_head, H.
Qed.

Lemma trim_idem (s : JS.str) : JS.trim (JS.trim s) = JS.trim s.
Proof.
  unfold JS.trim.
  destruct (JS.trimStart s) as [|c t] eqn:E; [reflexivity|].
  pose proof (trimStart_head _ _ _ E) as Hc.
  rewrite (trimEnd_cons _ _ Hc), (trimStart_fixed _ _ Hc), <- (trimEnd_cons _ _ Hc).
  apply trimEnd_idem.
Qed.

Lemma trim_head (s : JS.str) (c : N) (t : JS.str) :
  JS.trim s = c :: t -> JS.isWhiteSpace c = false.
Proof.
  unfold JS.trim.
  destruct (JS.trimStart s) as [|x u] eqn:E; [discriminate|].
  pose proof (trimStart_head _ _ _ E) as Hx.
  rewrite (trimEnd_cons _ _ Hx). intro H. injection H as <- _. exact Hx.
Qed.

Lemma trim_last (s t : JS.str) (c : N) :
  JS.trim s = t ++ [c] -> JS.isWhiteSpace c = false.
Proof. unfold JS.trim. apply trimEnd_last. Qed.

Lemma trim_split (s : JS.str) :
  exists a b,
    s = a ++ JS.trim s ++ b
    /\ forallb JS.isWhiteSpace a = true
    /\ forallb JS.isWhiteSpace b = true.
Proof.
  destruct (trimStart_split s) as (a & Hs & Ha).
  destruct (trimEnd_split (JS.trimStart s)) as (b & Ht & Hb).
  exists a, b. unfold JS.trim. now rewrite <- Ht.
Qed.

End TrimFacts.

(** * Behaviour of the wheel component beyond the decision contract *)

Module WheelBehaviour.

Import Wheel.
Local Open Scope Q_scope.
Unset Implicit Arguments.

(** ** The registry: add and remove *)

Section RegistryOperations.

Lemma filter_keeps_all {A : Type} (f : A -> bool) (l : list A) :
  (forall x, In x l -> f x = true) -> filter f l = l.
Proof.
  induction l as [|x l IH]; intro H; cbn [filter]; [reflexivity|].
  rewrite (H x (or_introl eq_refl)), IH; [reflexivity|].
  intros y Hy. apply H. now right.
Qed.

Lemma keeps_other_ids (id : Z) (items : list DecisionItem) :
  ~ In id (map DecisionItem.id items) ->
  filter (fun item => negb (DecisionItem.id item =? id)%Z) items = items.
Proof.
  intro Hnot. apply filter_keeps_all. intros item Hin.
  apply negb_true_iff, Z.eqb_neq. intros <-.
  apply Hnot, in_map, Hin.
Qed.

Lemma setDecisionItems_same (f : list DecisionItem -> list DecisionItem)
    (st : AppState) :
  f (decisionItems st) = decisionItems st -> setDecisionItems f st = st.
Proof. intro H. unfold setDecisionItems. rewrite H. now destruct st. Qed.

(** X1.  Removing an id that no item carries leaves the whole state, and
    so the count, as it was. *)
Theorem remove_unknown_id_changes_nothing (id : Z) (st : AppState) :
  ~ In id (ids st) ->
  remove id st = st /\ count (remove id st) = count st.
Proof.
  intro Hnot.
  assert (H : remove id st = st).
  { unfold remove, handleRemoveDecision.
    apply setDecisionItems_same. now apply keeps_other_ids. }
  now rewrite H.
Qed.

Lemma remove_unknown_id_changes_nothing_witness :
  ~ In 99%Z (ids sampleState) /\ remove 99 sampleState = sampleState.
Proof.
  assert (Hnot : ~ In 99%Z (ids sampleState)).
  { cbn. intros [H|[H|[H|[]]]]; discriminate. }
  split; [exact Hnot|].
  exact (proj1 (remove_unknown_id_changes_nothing 99 sampleState Hnot)).
Defined.

Lemma filter_split_length {A : Type} (f : A -> bool) (l : list A) :
  (length (filter (fun x => negb (f x)) l) + length (filter f l))%nat = length l.
Proof.
  induction l as [|x l IH]; cbn [filter]; [reflexivity|].
  destruct (f x); cbn [negb length]; lia.
Qed.

Lemma filter_comm {A : Type} (f g : A -> bool) (l : list A) :
  filter f (filter g l) = filter g (filter f l).
Proof.
  induction l as [|x l IH]; cbn [filter]; [reflexivity|].
  destruct (f x) eqn:Ef, (g x) eqn:Eg; cbn [filter];
    rewrite ?Ef, ?Eg, IH; reflexivity.
Qed.

Lemma filter_idem {A : Type} (f : A -> bool) (l : list A) :
  filter f (filter f l) = filter f l.
Proof.
  apply filter_keeps_all. intros x Hx. now apply filter_In in Hx.
Qed.

(** X2.  [remove] deletes every item that carries the id and keeps all
    the others in their order: the ids left are the old ids without the
    removed one, the count drops by the number of items that carried it,
    removing twice is removing once, and two removals commute. *)
Theorem remove_deletes_every_carrier (id : Z) (st : AppState) :
  ids (remove id st) = filter (fun i => negb (i =? id)%Z) (ids st)
  /\ ~ In id (ids (remove id st))
  /\ (forall item,
         In item (decisionItems (remove id st))
         <-> In item (decisionItems st) /\ DecisionItem.id item <> id)
  /\ (count (remove id st) + occurrences id st)%nat = count st
  /\ remove id (remove id st) = remove id st
  /\ (forall id', remove id (remove id' st) = remove id' (remove id st)).
Proof.
  split; [apply WheelFacts.ids_remove|].
  split.
  { rewrite WheelFacts.ids_remove. intro H. apply filter_In in H as [_ H].
    now rewrite Z.eqb_refl in H. }
  split.
  { intro item. unfold remove, handleRemoveDecision.
    cbn [decisionItems setDecisionItems]. rewrite filter_In.
    rewrite negb_true_iff, Z.eqb_neq. reflexivity. }
  split.
  { unfold count, occurrences, remove, handleRemoveDecision.
    cbn [decisionItems setDecisionItems].
    apply (filter_split_length (fun item => (DecisionItem.id item =? id)%Z)). }
  split.
  { unfold remove, handleRemoveDecision, setDecisionItems.
    cbn [decisionItems decisionText weight team betterDecision notification
         isSpinning rotation].
    now rewrite filter_idem. }
  intro id'. unfold remove, handleRemoveDecision, setDecisionItems.
  cbn [decisionItems decisionText weight team betterDecision notification
       isSpinning rotation].
  now rewrite filter_comm.
Qed.

(** X3.  An [add] followed by the removal of the id it used gives back
    the registry, provided no older item carried that id. *)
Theorem add_then_remove_restores_registry
    (label : JS.str) (w : Q) (category : Team) (now : Z) (st : AppState) :
  ~ In now (ids st) ->
  decisionItems (remove now (add label w category now st)) = decisionItems st.
Proof.
  intro Hnot. unfold remove, handleRemoveDecision, add, handleAddDecision.
  cbn [decisionText weight team setTeam setWeight setDecisionText].
  destruct (_ || _);
    cbn [decisionItems setTeam setWeight setDecisionText setDecisionItems
         setNotification].
  - now apply keeps_other_ids.
  - rewrite filter_app, (keeps_other_ids _ _ Hnot).
    cbn [filter DecisionItem.id]. rewrite Z.eqb_refl. cbn [negb].
    apply app_nil_r.
Qed.

Lemma add_then_remove_restores_registry_witness :
  ~ In 7%Z (ids sampleState)
  /\ decisionItems (remove 7 (add (JS.lit "read") 4 product 7 sampleState))
     = decisionItems sampleState.
Proof.
  assert (Hnot : ~ In 7%Z (ids sampleState)).
  { cbn. intros [H|[H|[H|[]]]]; discriminate. }
  split; [exact Hnot|].
  exact (add_then_remove_restores_registry (JS.lit "read") 4 product 7
           sampleState Hnot).
Defined.

(** X4.  A successful [add] resets the three form fields to their
    defaults and touches nothing else but the registry: a notification
    that was showing stays.  A refused [add] keeps the form as it was
    typed and only sets the notification. *)
Theorem add_resets_form_only_on_success
    (label : JS.str) (w : Q) (category : Team) (now : Z) (st : AppState) :
  (JS.trim label <> [] -> 0 <= w ->
   add label w category now st
   = {| decisionText := [];
        weight := 1;
        team := product;
        betterDecision := betterDecision st;
        decisionItems :=
          decisionItems st
          ++ [ {| DecisionItem.id := now;
                  DecisionItem.decision := JS.trim label;
                  DecisionItem.weight := JS.orElse w 1;
                  DecisionItem.team := category |} ];
        notification := notification st;
        isSpinning := isSpinning st;
        rotation := rotation st |})
  /\ (JS.trim label = [] \/ w < 0 ->
      add label w category now st
      = {| decisionText := label;
           weight := w;
           team := category;
           betterDecision := betterDecision st;
           decisionItems := decisionItems st;
           notification := addErrorMessage;
           isSpinning := isSpinning st;
           rotation := rotation st |}).
Proof.
  unfold add, handleAddDecision.
  cbn [decisionText weight team setTeam setWeight setDecisionText].
  split.
  - intros Hne Hw.
    destruct (JS.isEmpty (JS.trim label)) eqn:E1;
      [apply WheelFacts.isEmpty_true in E1; contradiction|].
    destruct (Qle_bool (JS.orElse w 1) 0) eqn:E2;
      [apply WheelFacts.weight_rejected in E2; lra|].
    reflexivity.
  - intros [He|Hw].
    + rewrite He. reflexivity.
    + apply WheelFacts.weight_rejected in Hw. rewrite Hw, orb_true_r.
      reflexivity.
Qed.

Lemma add_resets_form_only_on_success_witness :
  JS.trim (JS.lit " read ") <> [] /\ 0 <= 4
  /\ decisionText (add (JS.lit " read ") 4 engineering 7 sampleState) = []
  /\ team (add (JS.lit " read ") 4 engineering 7 sampleState) = product.
Proof.
  assert (Hne : JS.trim (JS.lit " read ") <> []) by (vm_compute; discriminate).
  assert (Hw : 0 <= 4) by (vm_compute; discriminate).
  split; [exact Hne|]. split; [exact Hw|].
  rewrite (proj1 (add_resets_form_only_on_success (JS.lit " read ") 4
                    engineering 7 sampleState) Hne Hw).
  split; reflexivity.
Defined.

Lemma nonempty_last {A : Type} (l : list A) :
  l <> [] -> exists t c, l = t ++ [c].
Proof.
  intro H. destruct (exists_last H) as (t & c & E). now exists t, c.
Qed.

(** X5.  The label an accepted [add] stores is the typed text without
    the whitespace around it: the typed text is that label between two
    runs of whitespace, the label is not empty, it neither starts nor
    ends with whitespace, and typing the label itself gives the same
    registry. *)
Theorem add_stores_trimmed_label
    (label : JS.str) (w : Q) (category : Team) (now : Z) (st : AppState) :
  JS.trim label <> [] -> 0 <= w ->
  exists item before after first middle final,
    decisionItems (add label w category now st) = decisionItems st ++ [item]
    /\ label = before ++ DecisionItem.decision item ++ after
    /\ forallb JS.isWhiteSpace before = true
    /\ forallb JS.isWhiteSpace after = true
    /\ DecisionItem.decision item = first :: middle
    /\ JS.isWhiteSpace first = false
    /\ last (DecisionItem.decision item) first = final
    /\ JS.isWhiteSpace final = false
    /\ decisionItems (add (DecisionItem.decision item) w category now st)
       = decisionItems (add label w category now st).
Proof.
  intros Hne Hw.
  destruct (WheelFacts.handleAddDecision_cases now
              (setTeam category (setWeight w (setDecisionText label st))))
    as [_ Hok].
  cbn [decisionText weight team decisionItems setTeam setWeight
       setDecisionText] in Hok.
  destruct (WheelFacts.handleAddDecision_cases now
              (setTeam category (setWeight w (setDecisionText (JS.trim label) st))))
    as [_ Hok'].
  cbn [decisionText weight team decisionItems setTeam setWeight
       setDecisionText] in Hok'.
  rewrite TrimFacts.trim_idem in Hok'.
  destruct (TrimFacts.trim_split label) as (before & after & Hsplit & Hb & Ha).
  destruct (JS.trim label) as [|first middle] eqn:E; [congruence|].
  destruct (nonempty_last (first :: middle)) as (t & final & Hlast);
    [discriminate|].
  eexists _, before, after, first, middle, final.
  split; [exact (Hok Hne Hw)|]. cbn [DecisionItem.decision].
  split; [exact Hsplit|]. split; [exact Hb|]. split; [exact Ha|].
  split; [reflexivity|].
  split; [eapply TrimFacts.trim_head, E|].
  split; [rewrite Hlast; apply last_last|].
  split.
  - apply (TrimFacts.trim_last label t). now rewrite E.
  - unfold add. rewrite (Hok Hne Hw). exact (Hok' Hne Hw).
Qed.

Lemma add_stores_trimmed_label_witness :
  JS.trim (JS.lit "  go out ") <> [] /\ 0 <= 5
  /\ exists item,
       decisionItems (add (JS.lit "  go out ") 5 product 7 initialState) = [item].
Proof.
  assert (Hne : JS.trim (JS.lit "  go out ") <> []) by (vm_compute; discriminate).
  assert (Hw : 0 <= 5) by (vm_compute; discriminate).
  split; [exact Hne|]. split; [exact Hw|].
  destruct (add_stores_trimmed_label (JS.lit "  go out ") 5 product 7
              initialState Hne Hw) as (item & _ & _ & _ & _ & _ & H & _).
  exists item. exact H.
Defined.

(** An item as [handleAddDecision] builds them. *)
Lemma perform_wellFormed (st : AppState) (op : Op) :
  Forall (fun item =>
            0 < DecisionItem.weight item
            /\ DecisionItem.decision item <> []
            /\ JS.trim (DecisionItem.decision item) = DecisionItem.decision item)
         (decisionItems st) ->
  Forall (fun item =>
            0 < DecisionItem.weight item
            /\ DecisionItem.decision item <> []
            /\ JS.trim (DecisionItem.decision item) = DecisionItem.decision item)
         (decisionItems (perform st op)).
Proof.
  intro H. destruct op as [label w category now|id]; cbn [perform].
  - unfold add, handleAddDecision.
    cbn [decisionText weight team setTeam setWeight setDecisionText].
    destruct (JS.isEmpty (JS.trim label)) eqn:E1; [exact H|]. cbn [orb].
    destruct (Qle_bool (JS.orElse w 1) 0) eqn:E2; [exact H|].
    cbn [decisionItems setTeam setWeight setDecisionText setDecisionItems].
    apply Forall_app. split; [exact H|].
    constructor; [|constructor].
    cbn [DecisionItem.weight DecisionItem.decision].
    split; [now apply WheelFacts.Qle_bool_false in E2|].
    split; [|apply TrimFacts.trim_idem].
    intro Hnil. rewrite Hnil in E1. discriminate.
  - unfold remove, handleRemoveDecision. cbn [decisionItems setDecisionItems].
    rewrite Forall_forall in *.
    intros item Hin. apply filter_In in Hin. now apply H.
Qed.

(** X6.  Whatever adds and removes were performed, every item of the
    registry has a positive weight and a label that is not empty and
    carries no whitespace at either end. *)
Theorem registry_items_are_well_formed (ops : list Op) :
  Forall (fun item =>
            0 < DecisionItem.weight item
            /\ DecisionItem.decision item <> []
            /\ JS.trim (DecisionItem.decision item) = DecisionItem.decision item)
         (decisionItems (performAll ops initialState)).
Proof.
  unfold performAll.
  assert (H : Forall (fun item =>
            0 < DecisionItem.weight item
            /\ DecisionItem.decision item <> []
            /\ JS.trim (DecisionItem.decision item) = DecisionItem.decision item)
            (decisionItems initialState)) by constructor.
  revert H. generalize initialState.
  induction ops as [|op rest IH]; intros st H; cbn [fold_left].
  - exact H.
  - apply IH. now apply perform_wellFormed.
Qed.

End RegistryOperations.

(** ** The event loop *)

Section EventLoop.

(** What [handleDecide] leaves alone, and what it schedules. *)
Lemma handleDecide_frame (random : Q) (st : AppState) :
  decisionText (fst (handleDecide random st)) = decisionText st
  /\ weight (fst (handleDecide random st)) = weight st
  /\ team (fst (handleDecide random st)) = team st
  /\ betterDecision (fst (handleDecide random st)) = betterDecision st
  /\ decisionItems (fst (handleDecide random st)) = decisionItems st
  /\ Forall (fun t =>
               exists item,
                 announces t item
                 /\ In item (decisionItems st)
                 /\ skipped (betterDecision st) item = false)
            (snd (handleDecide random st)).
Proof.
  unfold handleDecide.
  destruct (lacksTeam (decisionItems st)); [repeat split; constructor|].
  destruct (selectedItem _) as [item|] eqn:E; [|repeat split; constructor].
  repeat split. constructor; [|constructor].
  exists item. split; [reflexivity|].
  unfold selectionWalk in E.
  destruct (WheelFacts.forOf_some_split (betterDecision st) _
              (decisionItems st) (enterLoop _) item eq_refl E)
    as (before & after & Hsplit & Hs & _).
  split; [|exact Hs]. rewrite Hsplit. apply in_elt.
Qed.

Lemma dispatch_settled (w : World) (e : Event) :
  settled w -> settled (dispatch w e).
Proof.
  intros [Hw Hp]. unfold settled.
  destruct e; cbn [dispatch state pending];
    try (split; [exact Hw | exact Hp]).
  - (* ChangeWeight *)
    split; [|exact Hp]. unfold changeWeight. cbn [weight setWeight].
    eexists. split; [|reflexivity]. apply Z.le_max_l.
  - (* SubmitAdd *)
    split; [|exact Hp]. unfold handleAddDecision.
    destruct (_ || _); [exact Hw|].
    cbn [weight setTeam setWeight]. exists 1%Z. split; [lia | reflexivity].
  - (* ClickDecide *)
    destruct (decideDisabled (state w)); [now split|].
    destruct (handleDecide_frame random (state w))
      as (_ & Hweight & _ & _ & _ & Hts).
    destruct (handleDecide random (state w)) as [st' scheduled].
    cbn [state pending fst snd] in *. split; [now rewrite Hweight|].
    apply Forall_app. split; [exact Hp|].
    eapply Forall_impl; [|exact Hts].
    intros t (item & Ht & _). now exists item.
  - (* ClickBackdrop *)
    split; [|exact Hp]. unfold clickBackdrop.
    destruct (_ && _); exact Hw.
  - (* TimeoutFires *)
    destruct (nth_error (pending w) n) as [t|] eqn:E; [|now split].
    cbn [state pending]. split.
    + apply nth_error_In in E. rewrite Forall_forall in Hp.
      destruct (Hp t E) as [item Ht]. unfold announces in Ht.
      rewrite Ht. exact Hw.
    + now apply WheelFacts.removeNth_Forall.
  - (* NotificationExpires *)
    unfold notificationEffect.
    destruct (_ && _); cbn [state pending callback]; now split.
Qed.

Lemma run_settled (events : list Event) : settled (run events mounted).
Proof.
  unfold run.
  assert (H : settled mounted).
  { split; [exists 1%Z; split; [lia | reflexivity] | constructor]. }
  revert H. generalize mounted.
  induction events as [|e rest IH]; intros w H; cbn [fold_left].
  - exact H.
  - apply IH. now apply dispatch_settled.
Qed.

(** X7.  Through the form the weight field is always an integer from 1
    on, so the weight check of a submission never fires: a submission is
    refused exactly when the text is blank, and an accepted one stores
    the weight of the field as it is. *)
Theorem form_weight_is_never_rejected (events : list Event) (now : Z) :
  let st := state (run events mounted) in
  (exists z, (1 <= z)%Z /\ weight st = inject_Z z)
  /\ (JS.trim (decisionText st) = [] ->
      handleAddDecision now st = setNotification addErrorMessage st)
  /\ (JS.trim (decisionText st) <> [] ->
      decisionItems (handleAddDecision now st)
      = decisionItems st
        ++ [ {| DecisionItem.id := now;
                DecisionItem.decision := JS.trim (decisionText st);
                DecisionItem.weight := weight st;
                DecisionItem.team := team st |} ]).
Proof.
  intro st. destruct (run_settled events) as [Hw _]. fold st in Hw.
  split; [exact Hw|].
  destruct Hw as (z & Hz & Hweight).
  assert (H1 : 1 <= weight st).
  { rewrite Hweight. change 1 with (inject_Z 1). now rewrite <- Zle_Qle. }
  destruct (WheelFacts.handleAddDecision_cases now st) as [Hfail Hok].
  split.
  - intro He. apply Hfail. now left.
  - intro Hne. rewrite (Hok Hne) by lra.
    rewrite WheelFacts.orElse_nonzero by lra. reflexivity.
Qed.

Lemma form_weight_is_never_rejected_witness :
  JS.trim (decisionText (state (run [ChangeWeight (Some 0%Z);
                                     ChangeDecisionText (JS.lit "tea")]
                                  mounted))) <> []
  /\ map DecisionItem.weight
       (decisionItems
          (handleAddDecision 5%Z
             (state (run [ChangeWeight (Some 0%Z);
                          ChangeDecisionText (JS.lit "tea")] mounted))))
     = [1].
Proof.
  assert (Hne : JS.trim (decisionText
                           (state (run [ChangeWeight (Some 0%Z);
                                        ChangeDecisionText (JS.lit "tea")]
                                     mounted))) <> [])
    by (vm_compute; discriminate).
  split; [exact Hne|].
  rewrite (proj2 (proj2 (form_weight_is_never_rejected
                           [ChangeWeight (Some 0%Z);
                            ChangeDecisionText (JS.lit "tea")] 5%Z)) Hne).
  reflexivity.
Defined.

(** X8.  Only a submission or a removal changes the registry, only a
    decision changes the rotation, and only the check box changes the
    better-decision flag: whatever happened before, every other event,
    a firing timeout included, leaves them as they are. *)
Theorem events_change_only_their_own_cells (events : list Event) (e : Event) :
  let w := run events mounted in
  match e with
  | SubmitAdd _ | ClickRemove _ => True
  | _ => decisionItems (state (dispatch w e)) = decisionItems (state w)
  end
  /\ match e with
     | ClickDecide _ => True
     | _ => rotation (state (dispatch w e)) = rotation (state w)
     end
  /\ match e with
     | ToggleBetterDecision => True
     | _ => betterDecision (state (dispatch w e)) = betterDecision (state w)
     end.
Proof.
  intro w. destruct (run_settled events) as [_ Hp]. fold w in Hp.
  assert (Hfire : forall n t,
             nth_error (pending w) n = Some t ->
             exists item, callback t = spinDone item).
  { intros n t E. apply nth_error_In in E.
    rewrite Forall_forall in Hp. exact (Hp t E). }
  destruct e; cbn [dispatch]; repeat split;
    try reflexivity;
    try (unfold handleAddDecision; destruct (_ || _); reflexivity);
    try (unfold clickBackdrop; destruct (_ && _); reflexivity);
    try (unfold notificationEffect; destruct (_ && _); reflexivity);
    try (destruct (nth_error (pending w) n) as [t|] eqn:E; [|reflexivity];
         destruct (Hfire n t E) as [item Ht]; cbn [state];
         rewrite Ht; reflexivity).
  - destruct (decideDisabled (state w)); [reflexivity|].
    destruct (handleDecide_frame random (state w)) as (_ & _ & _ & _ & H & _).
    destruct (handleDecide random (state w)); exact H.
  - destruct (decideDisabled (state w)); [reflexivity|].
    destruct (handleDecide_frame random (state w)) as (_ & _ & _ & H & _).
    destruct (handleDecide random (state w)); exact H.
Qed.

End EventLoop.

(** ** More on the selection *)

Section SelectionBehaviour.

(** X9.  Whatever [handleDecide] schedules announces an item of the
    registry that the filter lets through: with the better-decision box
    checked it is never a product item.  When the timeout fires, the
    notification becomes "You should <label>!" for that item and the
    registry is untouched. *)
Theorem announced_item_passes_filter
    (random : Q) (st : AppState) (t : Timeout) :
  In t (snd (handleDecide random st)) ->
  exists item,
    In item (decisionItems st)
    /\ skipped (betterDecision st) item = false
    /\ (betterDecision st = true -> DecisionItem.team item = engineering)
    /\ (forall st',
           notification (callback t st')
           = JS.lit "You should " ++ DecisionItem.decision item ++ JS.lit "!"
           /\ isSpinning (callback t st') = false
           /\ decisionItems (callback t st') = decisionItems st').
Proof.
  intro Hin.
  destruct (handleDecide_frame random st) as (_ & _ & _ & _ & _ & Hts).
  rewrite Forall_forall in Hts.
  destruct (Hts t Hin) as (item & Ht & Hitem & Hs).
  exists item. split; [exact Hitem|]. split; [exact Hs|]. split.
  - intro Hbd. unfold skipped in Hs. rewrite Hbd in Hs. cbn [andb] in Hs.
    destruct (DecisionItem.team item); [discriminate | reflexivity].
  - intro st'. unfold announces in Ht. rewrite Ht. repeat split.
Qed.

Lemma announced_item_passes_filter_witness :
  In {| callback := spinDone walk; delay := 0 |}
     (snd (handleDecide 0 filteredState))
  /\ exists item,
       In item (decisionItems filteredState)
       /\ skipped (betterDecision filteredState) item = false.
Proof.
  assert (Hin : In {| callback := spinDone walk; delay := 0 |}
                   (snd (handleDecide 0 filteredState)))
    by (left; reflexivity).
  split; [exact Hin|].
  destruct (announced_item_passes_filter 0 filteredState _ Hin)
    as (item & H1 & H2 & _).
  exists item. split; assumption.
Defined.

(** The loop only sees the items that are not skipped. *)
Lemma forOf_eligible (bd : bool) (W : Q) (l : list DecisionItem) (w : Walk) :
  forOf bd W l w = forOf false W (eligible bd l) w.
Proof.
  revert w; induction l as [|item rest IH]; intro w; [reflexivity|].
  cbn [forOf]. destruct (skipped bd item) eqn:Hs.
  - rewrite (WheelFacts.eligible_cons_skipped _ _ _ Hs). apply IH.
  - rewrite (WheelFacts.eligible_cons_kept _ _ _ Hs). cbn [forOf skipped andb].
    destruct (Qle_bool _ 0); [reflexivity | apply IH].
Qed.

(** X11.  When a single item is eligible (the box is checked and the
    registry holds one engineering item), that item wins whatever the
    draw, its segment is the whole circle and the rotation is 1980. *)
Theorem lone_eligible_item_always_wins
    (random : Q) (st : AppState) (item : DecisionItem) :
  eligible (betterDecision st) (decisionItems st) = [item] ->
  0 < DecisionItem.weight item ->
  lacksTeam (decisionItems st) = false ->
  random <= 1 ->
  let w := selectionWalk (betterDecision st) (decisionItems st)
             (random * totalWeight (betterDecision st) (decisionItems st)) in
  snd (handleDecide random st) = [ {| callback := spinDone item; delay := 0 |} ]
  /\ winningStartDegree w = 0
  /\ winningEndDegree w == 360
  /\ rotation (fst (handleDecide random st)) == 1980.
Proof.
  intros Hel Hw Hpre H1 w.
  pose proof (WheelFacts.totalWeight_sum (betterDecision st) (decisionItems st))
    as Hsum.
  rewrite Hel in Hsum. cbn [sumWeights fold_right] in Hsum.
  set (W := totalWeight (betterDecision st) (decisionItems st)) in *.
  assert (Hwalk : w = {| randomNum := random * W - DecisionItem.weight item;
                         selectedItem := Some item;
                         cumulativeWeight := 0;
                         winningEndDegree := 0 + DecisionItem.weight item / W * 360;
                         winningStartDegree := 0 |}).
  { unfold w, selectionWalk. fold W. rewrite forOf_eligible, Hel.
    cbn [forOf skipped andb enterLoop randomNum cumulativeWeight selectedItem].
    destruct (Qle_bool (random * W - DecisionItem.weight item) 0) eqn:E;
      [reflexivity|].
    apply WheelFacts.Qle_bool_false in E. exfalso. nra. }
  assert (Hend : 0 + DecisionItem.weight item / W * 360 == 360)
    by (rewrite Hsum; field; lra).
  assert (Hdec : handleDecide random st
                 = (setRotation
                      (finalRotation 0 (0 + DecisionItem.weight item / W * 360))
                      (setNotification [] st),
                    [ {| callback := spinDone item; delay := 0 |} ])).
  { unfold handleDecide. rewrite Hpre. fold W. fold w. rewrite Hwalk.
    reflexivity. }
  rewrite Hdec, Hwalk.
  cbn [fst snd rotation setRotation winningStartDegree winningEndDegree].
  split; [reflexivity|]. split; [reflexivity|]. split; [exact Hend|].
  unfold finalRotation, fullSpins. rewrite Hend. vm_compute. reflexivity.
Qed.

Lemma lone_eligible_item_always_wins_witness :
  eligible (betterDecision loneEngineer) (decisionItems loneEngineer) = [walk]
  /\ rotation (fst (handleDecide (9 # 10) loneEngineer)) == 1980.
Proof.
  split; [reflexivity|].
  apply (lone_eligible_item_always_wins (9 # 10) loneEngineer walk eq_refl).
  - vm_compute. reflexivity.
  - reflexivity.
  - vm_compute. discriminate.
Defined.

End SelectionBehaviour.

(** ** The drawn wheel and the popup *)

Section Rendering.

Lemma map_removelast {A B : Type} (f : A -> B) (l : list A) :
  map f (removelast l) = removelast (map f l).
Proof.
  induction l as [|x l IH]; [reflexivity|].
  destruct l as [|y l]; [reflexivity|].
  cbn [removelast map] in *. now rewrite IH.
Qed.

Lemma stops_follow_segments (W : Q) (items : list DecisionItem)
    (index : nat) (c : Q) :
  stopDegrees (gradientStopsFrom W items index c)
  = segmentStops (segmentsFrom false W items c).
Proof.
  unfold stopDegrees, segmentStops.
  revert index c; induction items as [|item rest IH]; intros index c;
    [reflexivity|].
  cbn [gradientStopsFrom segmentsFrom skipped andb map flat_map fst snd app].
  now rewrite IH.
Qed.

Lemma stops_colors (W : Q) (items : list DecisionItem) (index : nat) (c : Q) :
  map fst (gradientStopsFrom W items index c)
  = flat_map (fun i => [colorAt i; colorAt i]) (seq index (length items)).
Proof.
  revert index c; induction items as [|item rest IH]; intros index c;
    [reflexivity|].
  cbn [gradientStopsFrom map fst length seq flat_map app].
  now rewrite IH.
Qed.

(** X13.  For a registry that is not empty, the stops of the drawn
    wheel are the bounds of the segments of the unfiltered selection,
    start then end for each item in registry order, with the last stop
    replaced by 360.  The style carries the stored rotation and a
    5 second transition only while spinning, and it does not depend on
    the better-decision box. *)
Theorem wheel_draws_unfiltered_segments (st : AppState) :
  decisionItems st <> [] ->
  exists style,
    generateWheelStyle st = Some style
    /\ stopDegrees (backgroundImage style)
       = removelast (segmentStops (segments false (decisionItems st))) ++ [360]
    /\ transform style = rotation st
    /\ transition style = (if isSpinning st then Some 5 else None)
    /\ (forall flag,
           generateWheelStyle (setBetterDecision flag st) = Some style).
Proof.
  intro Hne. unfold generateWheelStyle.
  destruct (decisionItems st) as [|item rest] eqn:E; [congruence|].
  eexists. split; [reflexivity|]. cbn [backgroundImage transform transition].
  split.
  { change (fold_left (fun sum item0 => sum + DecisionItem.weight item0)
              (item :: rest) 0)
      with (totalWeight false (item :: rest)).
    pose proof (stops_follow_segments (totalWeight false (item :: rest))
                  (item :: rest) 0 0) as Hstops.
    fold (segments false (item :: rest)) in Hstops.
    destruct (gradientStopsFrom (totalWeight false (item :: rest))
                (item :: rest) 0 0) as [|stop stops] eqn:Eg;
      [discriminate|].
    unfold stopDegrees in *. rewrite map_app, map_removelast, Hstops.
    reflexivity. }
  split; [reflexivity|]. split; [reflexivity|].
  intro flag. cbn [decisionItems setBetterDecision rotation isSpinning].
  rewrite E. reflexivity.
Qed.

Lemma wheel_draws_unfiltered_segments_witness :
  decisionItems filteredState <> []
  /\ exists style,
       generateWheelStyle filteredState = Some style
       /\ stopDegrees (backgroundImage style)
          = removelast (segmentStops (segments false (decisionItems filteredState)))
            ++ [360].
Proof.
  assert (Hne : decisionItems filteredState <> []) by discriminate.
  split; [exact Hne|].
  destruct (wheel_draws_unfiltered_segments filteredState Hne)
    as (style & H1 & H2 & _).
  exists style. split; assumption.
Defined.

Lemma generateWheelStyle_nonempty (st : AppState) :
  decisionItems st <> [] ->
  generateWheelStyle st
  = Some {| backgroundImage :=
              removelast
                (gradientStopsFrom (totalWeight false (decisionItems st))
                   (decisionItems st) 0 0)
              ++ [ (colorAt (length (decisionItems st) - 1), 360) ];
            transform := rotation st;
            transition := if isSpinning st then Some 5 else None |}.
Proof.
  intro Hne. unfold generateWheelStyle.
  destruct (decisionItems st) as [|item rest]; [congruence | reflexivity].
Qed.

Lemma stopColors_length_from (k n : nat) :
  length (flat_map (fun index => [colorAt index; colorAt index]) (seq k n))
  = (2 * n)%nat.
Proof.
  revert k; induction n as [|n IH]; intro k; [reflexivity|].
  cbn [seq flat_map app length]. rewrite IH. lia.
Qed.

Lemma stopColors_length (n : nat) : length (stopColors n) = (2 * n)%nat.
Proof. apply stopColors_length_from. Qed.

Lemma stopColors_last (n : nat) :
  removelast (stopColors (S n)) ++ [colorAt n] = stopColors (S n).
Proof.
  unfold stopColors. rewrite seq_S, flat_map_app. cbn [flat_map app plus].
  rewrite removelast_app by discriminate. cbn [removelast].
  now rewrite <- app_assoc.
Qed.

(** X14.  The drawn wheel has two stops per item, both of the colour
    of the item's position, and the ten colours repeat: positions ten
    apart share a colour.  Only the empty registry gives the empty
    style. *)
Theorem wheel_colors_cycle (st : AppState) :
  (generateWheelStyle st = None <-> decisionItems st = [])
  /\ (forall style,
         generateWheelStyle st = Some style ->
         map fst (backgroundImage style) = stopColors (count st)
         /\ length (backgroundImage style) = (2 * count st)%nat)
  /\ (forall index, colorAt (index + 10) = colorAt index).
Proof.
  split; [|split].
  - unfold generateWheelStyle.
    destruct (decisionItems st); split; intro H; congruence.
  - intros style Hstyle. unfold count.
    destruct (decisionItems st) as [|item rest] eqn:E;
      [unfold generateWheelStyle in Hstyle; rewrite E in Hstyle; discriminate|].
    rewrite generateWheelStyle_nonempty in Hstyle by (rewrite E; discriminate).
    injection Hstyle as <-. rewrite E.
    change (backgroundImage _)
      with (removelast
              (gradientStopsFrom (totalWeight false (item :: rest))
                 (item :: rest) 0 0)
            ++ [ (colorAt (length (item :: rest) - 1), 360) ]).
    assert (Hmap : map fst
                     (removelast
                        (gradientStopsFrom (totalWeight false (item :: rest))
                           (item :: rest) 0 0)
                      ++ [ (colorAt (length (item :: rest) - 1), 360) ])
                   = stopColors (length (item :: rest))).
    { rewrite map_app, map_removelast, stops_colors. cbn [map fst].
      fold (stopColors (length (item :: rest))).
      change (length (item :: rest)) with (S (length rest)).
      replace (S (length rest) - 1)%nat with (length rest) by lia.
      apply stopColors_last. }
    split; [exact Hmap|].
    rewrite <- (length_map fst), Hmap. apply stopColors_length.
  - intro index. unfold colorAt. cbn [length colors].
    replace (index + 10)%nat with (index + 1 * 10)%nat by lia.
    now rewrite Nat.Div0.mod_add.
Qed.

Lemma wheel_colors_cycle_witness :
  generateWheelStyle sampleState
  = Some {| backgroundImage :=
              removelast
                (gradientStopsFrom (totalWeight false [tea; walk; nap])
                   [tea; walk; nap] 0 0)
              ++ [ (colorAt 2, 360) ];
            transform := 0;
            transition := None |}
  /\ length
       (removelast
          (gradientStopsFrom (totalWeight false [tea; walk; nap])
             [tea; walk; nap] 0 0)
        ++ [ (colorAt 2, 360) ])
     = 6%nat.
Proof.
  assert (Hstyle : generateWheelStyle sampleState
                   = Some {| backgroundImage :=
                               removelast
                                 (gradientStopsFrom
                                    (totalWeight false [tea; walk; nap])
                                    [tea; walk; nap] 0 0)
                               ++ [ (colorAt 2, 360) ];
                             transform := 0;
                             transition := None |})
    by reflexivity.
  split; [exact Hstyle|].
  exact (proj2 (proj1 (proj2 (wheel_colors_cycle sampleState)) _ Hstyle)).
Defined.

Lemma startsWith_snoc (s p : JS.str) (c : N) :
  ~ In c p -> JS.startsWith (s ++ [c]) p = JS.startsWith s p.
Proof.
  revert s; induction p as [|a p IH]; intros s Hnot; [reflexivity|].
  destruct s as [|b s]; cbn [app JS.startsWith].
  - assert (E : (a =? c)%N = false).
    { apply N.eqb_neq. intros ->. apply Hnot. now left. }
    rewrite E. destruct p; reflexivity.
  - rewrite IH; [reflexivity|]. intro H. apply Hnot. now right.
Qed.

Lemma includes_snoc (s p : JS.str) (c : N) :
  ~ In c p -> p <> [] -> JS.includes (s ++ [c]) p = JS.includes s p.
Proof.
  intros Hnot Hne. induction s as [|b s IH].
  - cbn [app JS.includes].
    change [c] with ([] ++ [c]). rewrite (startsWith_snoc [] p c Hnot).
    destruct p as [|a p]; [congruence|]. reflexivity.
  - change ((b :: s) ++ [c]) with (b :: (s ++ [c])). cbn [JS.includes].
    change (b :: (s ++ [c])) with ((b :: s) ++ [c]).
    now rewrite (startsWith_snoc (b :: s) p c Hnot), IH.
Qed.

Lemma finalMessage_mentions_error (item : DecisionItem) :
  JS.includes (finalMessage item) (JS.lit "Error")
  = JS.includes (DecisionItem.decision item) (JS.lit "Error").
Proof.
  unfold finalMessage.
  rewrite <- (app_nil_r (JS.lit "Error")).
  rewrite (BinaryFacts.clashAll_includes (JS.lit "You should ") (JS.lit "Error")
             (DecisionItem.decision item ++ JS.lit "!") [])
    by (vm_compute; reflexivity).
  rewrite app_nil_r. change (JS.lit "!") with [33%N].
  apply includes_snoc.
  - vm_compute. intuition discriminate.
  - discriminate.
Qed.

(** X15.  The popup that announces a result is treated as an error,
    painted red and kept open on a click of the backdrop, exactly when
    the label of the selected item contains "Error"; any other result
    is painted indigo and dismissed by the click.  The two error
    messages of the component are never dismissed by the click. *)
Theorem result_popup_is_error_iff_label_mentions_error
    (item : DecisionItem) (st : AppState) :
  let shown := spinDone item st in
  let mentions := JS.includes (DecisionItem.decision item) (JS.lit "Error") in
  popupVisible shown = true
  /\ popupIsError shown = mentions
  /\ popupBackground shown
     = (if mentions then "#dc2626"%string else "#4f46e5"%string)
  /\ clickBackdrop shown
     = (if mentions then shown else setNotification [] shown)
  /\ clickBackdrop (setNotification addErrorMessage shown)
     = setNotification addErrorMessage shown
  /\ clickBackdrop (setNotification decideErrorMessage shown)
     = setNotification decideErrorMessage shown.
Proof.
  intros shown mentions.
  assert (H : popupIsError shown = mentions).
  { unfold popupIsError, shown, spinDone.
    cbn [notification setNotification]. apply finalMessage_mentions_error. }
  split; [reflexivity|]. split; [exact H|].
  split; [unfold popupBackground; now rewrite H|].
  split; [|split; reflexivity].
  unfold clickBackdrop. fold (popupIsError shown). rewrite H.
  unfold shown, spinDone at 1. cbn [isSpinning setNotification setIsSpinning negb andb].
  destruct mentions; reflexivity.
Qed.

End Rendering.

End WheelBehaviour.

(** * Behaviour of the binary oracle beyond the verdict *)

Module BinaryBehaviour.

Import Binary.
Local Open Scope Q_scope.
Unset Implicit Arguments.

(** X16.  After a submission the popup is always shown; it is red
    exactly when the topic was blank after trimming, and indigo for
    every verdict, whatever the topic says. *)
Theorem oracle_popup_is_red_only_for_blank_topic
    (topic : JS.str) (random : Q) (st : AppState) :
  popupVisible (decide topic random st) = true
  /\ popupBackground (decide topic random st)
     = (if JS.isEmpty (JS.trim topic)
        then "#dc2626"%string else "#4f46e5"%string).
Proof.
  unfold decide, handleSubmit, popupVisible, popupBackground.
  cbn [inputValue setInputValue].
  destruct (JS.trim topic) as [|c T]; cbn [JS.isEmpty].
  - split; reflexivity.
  - cbn [notification setInputValue setNotification].
    destruct (JS.ltb random (1 # 2)); split; reflexivity.
Qed.

(** X17.  The outcome of a submission depends on the topic only through
    its trimmed text, and not on what was shown before: the typed topic
    and its trimmed text give the same notification.  An accepted
    submission empties the input field, a refused one keeps it as
    typed. *)
Theorem oracle_reads_trimmed_topic
    (topic : JS.str) (random : Q) (st st' : AppState) :
  notification (decide topic random st)
  = notification (decide (JS.trim topic) random st')
  /\ inputValue (decide topic random st)
     = (if JS.isEmpty (JS.trim topic) then topic else []).
Proof.
  unfold decide, handleSubmit. cbn [inputValue setInputValue].
  rewrite TrimFacts.trim_idem.
  destruct (JS.trim topic); cbn [JS.isEmpty]; split; reflexivity.
Qed.

End BinaryBehaviour.
